(** * GitDoc front end: analysis orchestration and quality metrics

    A shallow embedding of the client-side logic of the repository:
    - [services/api.js]: [formatError], [validateGitHubUrl], [extractRepoInfo]
      and the error wrapping of [apiService];
    - [components/RepoInput.jsx]: the submission form;
    - [App.js]: [handleAnalyzeRepo] and [clearAnalysis];
    - [components/CodeExplorer.jsx]: [selectFile], [explainCode] and
      [buildFileTree];
    - [components/QualityScore.jsx]: [calculateMetrics].

    Conventions of the embedding.
    - A JavaScript number is an exact rational ([Qc], canonical fractions, so
      that equal numbers are equal terms) wherever the statement is about
      comparisons, bounds, thresholds and the order of the operations as
      the code has it.  [calculateMetrics] is embedded a second time in
      [Binary64], on the binary64 numbers of the code, for what depends on
      the rounding of the sums.
    - A JavaScript string is a [string] of bytes; [toLowerCase] and [trim]
      act on the ASCII range (the white space beyond it that
      [String.prototype.trim] removes as well, such as U+00A0, is outside
      the model).
    - A field that may be [undefined] or [null] is an [option].
    - A plain object used as a dictionary is a [gmap] when only its lookups
      are observed, and the list of its own entries when it is enumerated
      ([Object.entries]); the list is in insertion order, the place that
      enumeration gives to integer-like keys is not modelled.  A lookup
      [obj[k]] also sees the properties inherited from [Object.prototype].
    - An [async] function is split at its [await]: the part before it is one
      step, the continuation is a second step run when the promise settles. *)

From Stdlib Require Import Ascii QArith Qcanon Qround Lqa PrimFloat.
From stdpp Require Import base option numbers strings pretty gmap fin_maps list.

Local Open Scope string_scope.

(** A decimal literal stands for the nearest binary64 number, as it does in
    JavaScript. *)
Set Warnings "-inexact-float".

(** ** JavaScript numbers *)

Module JS.

Local Open Scope Qc_scope.

Abbreviation num := Qc.

Definition of_Z (z : Z) : num := Q2Qc (inject_Z z).
Definition of_nat (n : nat) : num := of_Z (Z.of_nat n).

(** [x < y], [x > y], [x >= y] on numbers. *)
Definition ltb (x y : num) : bool :=
  match Qccompare x y with Lt => true | _ => false end.
Definition gtb (x y : num) : bool := ltb y x.
Definition geb (x y : num) : bool := negb (ltb x y).

(** [Math.min(x, y)]. *)
Definition min (x y : num) : num := if ltb y x then y else x.

(** [Math.round(x)]: the nearest integer, halves going up. *)
Definition round (x : num) : num := of_Z (Qfloor (x + of_Z 1 / of_Z 2)).

(** Truthiness of a number that may be missing: [undefined], [null] and
    [0] are falsy. *)
Definition truthy (x : option num) : bool :=
  match x with
  | Some v => negb (Qc_eq_bool v 0)
  | None => false
  end.

(** [x || d] where [x] is a number or missing. *)
Definition or_num (x : option num) (d : num) : num :=
  match x with
  | Some v => if truthy x then v else d
  | None => d
  end.

(** [s || d] where [s] is a string or missing: the empty string is falsy. *)
Definition or_str (s : option string) (d : string) : string :=
  match s with
  | Some EmptyString => d
  | Some v => v
  | None => d
  end.

(** [xs.reduce((a, b) => a + b, 0)]. *)
Definition sum (xs : list num) : num := foldl Qcplus 0 xs.

(** The property names every plain object inherits from
    [Object.prototype]: on an object created by [{}], [obj[k]] for such a
    [k] is a function (for [__proto__], the prototype itself) and not
    [undefined]. *)
Definition objectPrototypeKeys : list string :=
  [ "constructor"; "__proto__"; "hasOwnProperty"; "isPrototypeOf";
    "propertyIsEnumerable"; "toLocaleString"; "toString"; "valueOf";
    "__defineGetter__"; "__defineSetter__"; "__lookupGetter__";
    "__lookupSetter__" ].

Definition inheritedKey (k : string) : bool :=
  bool_decide (k ∈ objectPrototypeKeys).

(** ASCII [toLowerCase]. *)
Definition lower_ascii (c : Ascii.ascii) : Ascii.ascii :=
  let n := Ascii.nat_of_ascii c in
  if (65 <=? n)%nat && (n <=? 90)%nat then Ascii.ascii_of_nat (n + 32) else c.

Fixpoint toLowerCase (s : string) : string :=
  match s with
  | EmptyString => EmptyString
  | String c r => String (lower_ascii c) (toLowerCase r)
  end.

(** [s.includes(t)]. *)
Fixpoint includes (s t : string) : bool :=
  String.prefix t s ||
  match s with
  | EmptyString => false
  | String _ r => includes r t
  end.

End JS.

(** ** Records received from the backend *)

Record FileRecord := {
  path : string;
  content : string;
  file_language : string;
  size : nat
}.

Record AnalysisEntry := {
  file_path : string;
  language : string;
  complexity_score : option JS.num;
  documentation_quality : option JS.num
}.

(** ** components/QualityScore.jsx *)

Module QualityScore.

Local Open Scope Qc_scope.
Import JS.

Inductive RecType := warning | info | success.

Record Recommendation := { type : RecType; text : string }.

Record LangStat := {
  count : nat;
  avgComplexity : num;
  avgDoc : num
}.

Record Metrics := {
  documentation_coverage : num;
  code_complexity : num;
  maintainability_score : num;
  test_coverage : num;
  overall_score : num;
  recommendations : list Recommendation;
  languageStats : gmap string LangStat;
  totalFiles : nat;
  analyzedFiles : nat
}.

(** [xs.length > 0 ? sum(xs) / xs.length : 0] *)
Definition mean (xs : list num) : num :=
  if (0 <? length xs)%nat then sum xs / of_nat (length xs) else 0.

Definition docCoverage (analysis : list AnalysisEntry) : num :=
  mean (map (fun a => or_num (documentation_quality a) 0) analysis).

Definition avgComplexityOf (analysis : list AnalysisEntry) : num :=
  mean (map (fun a => or_num (complexity_score a) 0) analysis).

Definition maintainability (analysis : list AnalysisEntry) : num :=
  (docCoverage analysis + (of_Z 10 - avgComplexityOf analysis)) / of_Z 2.

Definition isTestFile (a : AnalysisEntry) : bool :=
  includes (toLowerCase (file_path a)) "test".

Definition testFiles (analysis : list AnalysisEntry) : nat :=
  length (List.filter isTestFile analysis).

Definition testCoverage (analysis : list AnalysisEntry)
    (files : list FileRecord) : num :=
  if (0 <? length files)%nat
  then min (of_nat (testFiles analysis) / of_nat (length files) * of_Z 100)
           (of_Z 100)
  else 0.

(** The weighted formula on the right of [||]. *)
Definition weightedScore (analysis : list AnalysisEntry)
    (files : list FileRecord) : num :=
  docCoverage analysis * (of_Z 3 / of_Z 10)
  + (of_Z 10 - avgComplexityOf analysis) * (of_Z 3 / of_Z 10)
  + maintainability analysis * (of_Z 2 / of_Z 10)
  + testCoverage analysis files / of_Z 10 * (of_Z 2 / of_Z 10).

(** [documentation?.quality_score || ...] *)
Definition overallScore (analysis : list AnalysisEntry)
    (files : list FileRecord) (quality_score : option num) : num :=
  or_num quality_score (weightedScore analysis files).

Definition recDoc : Recommendation :=
  {| type := warning; text := "Improve code documentation and comments" |}.
Definition recComplexity : Recommendation :=
  {| type := warning;
     text := "Reduce code complexity by refactoring large functions" |}.
Definition recTests : Recommendation :=
  {| type := info; text := "Add more unit tests for better coverage" |}.
Definition recExcellent : Recommendation :=
  {| type := success;
     text := "Excellent code quality! Keep up the good work" |}.
Definition recGood : Recommendation :=
  {| type := info; text := "Good code quality with room for improvement" |}.
Definition recPoor : Recommendation :=
  {| type := warning;
     text := "Consider focusing on code quality improvements" |}.

(** [if (c) recommendations.push(r)] *)
Definition pushIf (c : bool) (r : Recommendation)
    (recs : list Recommendation) : list Recommendation :=
  if c then recs ++ [r] else recs.

(** The closing [if / else if / else]. *)
Definition verdict (overall : num) : Recommendation :=
  if geb overall (of_Z 8) then recExcellent
  else if geb overall (of_Z 6) then recGood
  else recPoor.

Definition makeRecommendations (doc cplx test overall : num)
    : list Recommendation :=
  let recs := [] in
  let recs := pushIf (ltb doc (of_Z 5)) recDoc recs in
  let recs := pushIf (gtb cplx (of_Z 7)) recComplexity recs in
  let recs := pushIf (ltb test (of_Z 30)) recTests recs in
  recs ++ [verdict overall].

(** One iteration of the [analysis.forEach] that fills [languageStats].
    For a language tag that names an inherited property,
    [languageStats[a.language]] is that inherited value: it is truthy, so no
    entry is created, and the three updates go to the inherited value and
    leave [languageStats] without an entry for the tag. *)
Definition addEntry (stats : gmap string LangStat) (a : AnalysisEntry)
    : gmap string LangStat :=
  if inheritedKey (language a) then stats
  else
    let s := match stats !! language a with
             | Some s => s
             | None => {| count := 0; avgComplexity := 0; avgDoc := 0 |}
             end in
    <[language a :=
        {| count := S (count s);
           avgComplexity := avgComplexity s + or_num (complexity_score a) 0;
           avgDoc := avgDoc s + or_num (documentation_quality a) 0 |}]> stats.

(** The body of the [Object.keys(languageStats).forEach]. *)
Definition finishStat (s : LangStat) : LangStat :=
  {| count := count s;
     avgComplexity := avgComplexity s / of_nat (count s);
     avgDoc := avgDoc s / of_nat (count s) |}.

Definition languageStatsOf (analysis : list AnalysisEntry)
    : gmap string LangStat :=
  finishStat <$> foldl addEntry ∅ analysis.

(** [Math.round(x * 10) / 10] *)
Definition round1 (x : num) : num := round (x * of_Z 10) / of_Z 10.

(** [calculateMetrics], as a function of [analysisData.analysis],
    [analysisData.files] and [documentation.quality_score]; the result is
    the object handed to [setMetrics]. *)
Definition calculateMetrics (analysis : list AnalysisEntry)
    (files : list FileRecord) (quality_score : option num) : Metrics :=
  let doc := docCoverage analysis in
  let cplx := avgComplexityOf analysis in
  let maint := maintainability analysis in
  let test := testCoverage analysis files in
  let overall := overallScore analysis files quality_score in
  {| documentation_coverage := round1 doc;
     code_complexity := round1 cplx;
     maintainability_score := round1 maint;
     test_coverage := round1 test;
     overall_score := round1 overall;
     recommendations := makeRecommendations doc cplx test overall;
     languageStats := languageStatsOf analysis;
     totalFiles := length files;
     analyzedFiles := length analysis |}.

End QualityScore.

(** ** components/QualityScore.jsx in binary64

    [calculateMetrics] once more, with the numbers the code computes with:
    IEEE 754 binary64, every operation rounded to nearest, ties to even.
    This is the embedding for statements that depend on the order or the
    rounding of the additions. *)

Module Binary64.

Import JS QualityScore.

Abbreviation num := float.

(** An entry of [analysisData.analysis] with binary64 scores. *)
Record AnalysisEntry := {
  file_path : string;
  language : string;
  complexity_score : option num;
  documentation_quality : option num
}.

(** A length as a number: exact, an array being shorter than 2^53. *)
Fixpoint of_nat (n : nat) : num :=
  match n with
  | O => 0
  | S n' => of_nat n' + 1
  end%float.

(** Truthiness of a number that may be missing: [undefined], [null], [0],
    [-0] and [NaN] are falsy. *)
Definition truthy (x : option num) : bool :=
  match x with
  | Some v => negb (v =? 0)%float && negb (is_nan v)
  | None => false
  end.

(** [x || d] *)
Definition or_num (x : option num) (d : num) : num :=
  match x with
  | Some v => if truthy x then v else d
  | None => d
  end.

(** [xs.reduce((a, b) => a + b, 0)]: the additions are made from the left,
    each one rounded. *)
Definition sum (xs : list num) : num := foldl PrimFloat.add 0%float xs.

(** [Math.min(x, y)] *)
Definition min (x y : num) : num :=
  if is_nan x || is_nan y then nan
  else if (x =? y)%float then (if get_sign x then x else y)
  else if (y <? x)%float then y else x.

(** From 2^52 on every binary64 number is an integer. *)
Definition two52 : num := 4503599627370496%float.

(** The integer part of [x] for [0 <= x < 2^52]: adding 2^52 rounds [x] to
    an integer, the nearest one, which is the integer part or the next
    integer. *)
Definition floorPos (x : num) : num :=
  let r := (x + two52 - two52)%float in
  if (x <? r)%float then (r - 1)%float else r.

(** [Math.round(x)]: the nearest integer, halves going up; an integer, an
    infinity and [NaN] are returned as they are, and so is the sign of a
    result that is zero. *)
Definition round (x : num) : num :=
  if (abs x <? two52)%float then
    if (x <? 0)%float then
      let y := (- x)%float in
      let f := floorPos y in
      if (y - f <=? 0.5)%float then (- f)%float else (- (f + 1))%float
    else if (x =? 0)%float then x
    else
      let f := floorPos x in
      if (x - f <? 0.5)%float then f else (f + 1)%float
  else x.

(** [Math.round(x * 10) / 10] *)
Definition round1 (x : num) : num := (round (x * 10) / 10)%float.

(** [xs.length > 0 ? sum(xs) / xs.length : 0] *)
Definition mean (xs : list num) : num :=
  if (0 <? length xs)%nat then (sum xs / of_nat (length xs))%float
  else 0%float.

Definition docCoverage (analysis : list AnalysisEntry) : num :=
  mean (map (fun a => or_num (documentation_quality a) 0) analysis).

Definition avgComplexityOf (analysis : list AnalysisEntry) : num :=
  mean (map (fun a => or_num (complexity_score a) 0) analysis).

Definition maintainability (analysis : list AnalysisEntry) : num :=
  ((docCoverage analysis + (10 - avgComplexityOf analysis)) / 2)%float.

Definition isTestFile (a : AnalysisEntry) : bool :=
  includes (toLowerCase (file_path a)) "test".

Definition testFiles (analysis : list AnalysisEntry) : nat :=
  length (List.filter isTestFile analysis).

Definition testCoverage (analysis : list AnalysisEntry)
    (files : list FileRecord) : num :=
  if (0 <? length files)%nat
  then min (of_nat (testFiles analysis) / of_nat (length files) * 100)%float
           100%float
  else 0%float.

(** The weighted formula on the right of [||]. *)
Definition weightedScore (analysis : list AnalysisEntry)
    (files : list FileRecord) : num :=
  (docCoverage analysis * 0.3
   + (10 - avgComplexityOf analysis) * 0.3
   + maintainability analysis * 0.2
   + testCoverage analysis files / 10 * 0.2)%float.

(** [documentation?.quality_score || ...] *)
Definition overallScore (analysis : list AnalysisEntry)
    (files : list FileRecord) (quality_score : option num) : num :=
  or_num quality_score (weightedScore analysis files).

(** The closing [if / else if / else]. *)
Definition verdict (overall : num) : Recommendation :=
  if (8 <=? overall)%float then recExcellent
  else if (6 <=? overall)%float then recGood
  else recPoor.

Definition makeRecommendations (doc cplx test overall : num)
    : list Recommendation :=
  let recs := [] in
  let recs := pushIf (doc <? 5)%float recDoc recs in
  let recs := pushIf (7 <? cplx)%float recComplexity recs in
  let recs := pushIf (test <? 30)%float recTests recs in
  recs ++ [verdict overall].

Record LangStat := {
  count : nat;
  avgComplexity : num;
  avgDoc : num
}.

(** One iteration of the [analysis.forEach] that fills [languageStats]. *)
Definition addEntry (stats : gmap string LangStat) (a : AnalysisEntry)
    : gmap string LangStat :=
  if inheritedKey (language a) then stats
  else
    let s := match stats !! language a with
             | Some s => s
             | None => {| count := 0; avgComplexity := 0; avgDoc := 0 |}
             end in
    <[language a :=
        {| count := S (count s);
           avgComplexity :=
             (avgComplexity s + or_num (complexity_score a) 0)%float;
           avgDoc :=
             (avgDoc s + or_num (documentation_quality a) 0)%float |}]> stats.

(** The body of the [Object.keys(languageStats).forEach]. *)
Definition finishStat (s : LangStat) : LangStat :=
  {| count := count s;
     avgComplexity := (avgComplexity s / of_nat (count s))%float;
     avgDoc := (avgDoc s / of_nat (count s))%float |}.

Definition languageStatsOf (analysis : list AnalysisEntry)
    : gmap string LangStat :=
  finishStat <$> foldl addEntry ∅ analysis.

Record Metrics := {
  documentation_coverage : num;
  code_complexity : num;
  maintainability_score : num;
  test_coverage : num;
  overall_score : num;
  recommendations : list Recommendation;
  languageStats : gmap string LangStat;
  totalFiles : nat;
  analyzedFiles : nat
}.

(** [calculateMetrics] *)
Definition calculateMetrics (analysis : list AnalysisEntry)
    (files : list FileRecord) (quality_score : option num) : Metrics :=
  let doc := docCoverage analysis in
  let cplx := avgComplexityOf analysis in
  let maint := maintainability analysis in
  let test := testCoverage analysis files in
  let overall := overallScore analysis files quality_score in
  {| documentation_coverage := round1 doc;
     code_complexity := round1 cplx;
     maintainability_score := round1 maint;
     test_coverage := round1 test;
     overall_score := round1 overall;
     recommendations := makeRecommendations doc cplx test overall;
     languageStats := languageStatsOf analysis;
     totalFiles := length files;
     analyzedFiles := length analysis |}.

(** The number of entries of each language, for the tags that get an entry
    in [languageStats]. *)
Definition addCount (counts : gmap string nat) (a : AnalysisEntry)
    : gmap string nat :=
  if inheritedKey (language a) then counts
  else <[language a := S (default 0%nat (counts !! language a))]> counts.

Definition languageCounts (analysis : list AnalysisEntry) : gmap string nat :=
  foldl addCount ∅ analysis.

End Binary64.

(** ** Regular expressions

    The fragment used by [services/api.js]: literals, character classes,
    sequence, [+], [?], with both anchors.  Matching is by derivatives. *)

Module Regex.

Inductive regex :=
| Void
| Eps
| Class (p : Ascii.ascii -> bool)
| Seq (r1 r2 : regex)
| Alt (r1 r2 : regex)
| Star (r : regex).

Definition Chr (c : Ascii.ascii) : regex := Class (Ascii.eqb c).
Definition Plus (r : regex) : regex := Seq r (Star r).
Definition Opt (r : regex) : regex := Alt r Eps.

Fixpoint Lit (s : string) : regex :=
  match s with
  | EmptyString => Eps
  | String c r => Seq (Chr c) (Lit r)
  end.

Fixpoint nullable (r : regex) : bool :=
  match r with
  | Void => false
  | Eps => true
  | Class _ => false
  | Seq r1 r2 => nullable r1 && nullable r2
  | Alt r1 r2 => nullable r1 || nullable r2
  | Star _ => true
  end.

Fixpoint deriv (c : Ascii.ascii) (r : regex) : regex :=
  match r with
  | Void => Void
  | Eps => Void
  | Class p => if p c then Eps else Void
  | Seq r1 r2 =>
      if nullable r1
      then Alt (Seq (deriv c r1) r2) (deriv c r2)
      else Seq (deriv c r1) r2
  | Alt r1 r2 => Alt (deriv c r1) (deriv c r2)
  | Star r1 => Seq (deriv c r1) (Star r1)
  end.

(** [/^r$/.test(s)] *)
Fixpoint test (r : regex) (s : string) : bool :=
  match s with
  | EmptyString => nullable r
  | String c s' => test (deriv c r) s'
  end.

End Regex.

(** ** services/api.js *)

Module Api.

Import JS Regex.

(** The body of an error response. *)
Record ResponseData := { detail : option string }.

Record Response := { status : nat; data : option ResponseData }.

(** An error object as [formatError] reads it: an axios error carries
    [response] and [code]; an [Error] built with [new Error(msg)] carries
    the message only. *)
Record Error := {
  response : option Response;
  code : option string;
  message : string
}.

(** [new Error(msg)] *)
Definition newError (msg : string) : Error :=
  {| response := None; code := None; message := msg |}.

(** What an [await] yields: the promise fulfils with a value or rejects
    with an error. *)
Inductive Settled (A : Type) :=
| Fulfilled (v : A)
| Rejected (e : Error).
Arguments Fulfilled {A} v.
Arguments Rejected {A} e.

(** [error.response?.data?.detail] *)
Definition responseDetail (e : Error) : option string :=
  r ← response e; d ← data r; detail d.

(** The [try]/[catch] shared by the methods of [apiService]: the data of
    the response is returned, a rejection is rethrown as a fresh [Error]
    whose message is the detail of the response or the given fallback. *)
Definition wrap {A} (fallback : string) (res : Settled A) : Settled A :=
  match res with
  | Fulfilled d => Fulfilled d
  | Rejected e => Rejected (newError (or_str (responseDetail e) fallback))
  end.

Definition analyzeRepository {A} (res : Settled A) : Settled A :=
  wrap "Failed to analyze repository" res.

Definition explainCode {A} (res : Settled A) : Settled A :=
  wrap "Failed to explain code" res.

Definition searchCode {A} (res : Settled A) : Settled A :=
  wrap "Failed to search code" res.

Definition msgInvalidInput : string :=
  "Invalid input data. Please check your repository URL.".
Definition msgNotFound : string :=
  "Repository not found. Please check the URL and try again.".
Definition msgServerError : string :=
  "Server error. Please try again later.".
Definition msgNetwork : string :=
  "Network error. Please check your connection and ensure the backend is running.".
Definition msgUnexpected : string := "An unexpected error occurred".

(** [error.response?.status === n] *)
Definition statusIs (e : Error) (n : nat) : bool :=
  match response e with
  | Some r => Nat.eqb (status r) n
  | None => false
  end.

Definition formatError (e : Error) : string :=
  if statusIs e 422 then msgInvalidInput
  else if statusIs e 404 then msgNotFound
  else if statusIs e 500 then msgServerError
  else if bool_decide (code e = Some "NETWORK_ERROR") then msgNetwork
  else or_str (Some (message e)) msgUnexpected.

(** ASCII white space, as removed by [trim]. *)
Definition isSpace (c : Ascii.ascii) : bool :=
  let n := Ascii.nat_of_ascii c in
  ((9 <=? n)%nat && (n <=? 13)%nat) || (n =? 32)%nat.

Fixpoint trimStart (s : string) : string :=
  match s with
  | EmptyString => EmptyString
  | String c r => if isSpace c then trimStart r else s
  end.

Fixpoint trimEnd (s : string) : string :=
  match s with
  | EmptyString => EmptyString
  | String c r =>
      match trimEnd r with
      | EmptyString => if isSpace c then EmptyString else String c EmptyString
      | r' => String c r'
      end
  end.

Definition trim (s : string) : string := trimEnd (trimStart s).

(** The class [[a-zA-Z0-9_.-]]. *)
Definition nameChar (c : Ascii.ascii) : bool :=
  let n := Ascii.nat_of_ascii c in
  ((97 <=? n)%nat && (n <=? 122)%nat)
  || ((65 <=? n)%nat && (n <=? 90)%nat)
  || ((48 <=? n)%nat && (n <=? 57)%nat)
  || (n =? 95)%nat || (n =? 46)%nat || (n =? 45)%nat.

Definition name : regex := Plus (Class nameChar).

(** [/^https:\/\/github\.com\/[a-zA-Z0-9_.-]+\/[a-zA-Z0-9_.-]+\/?$/] *)
Definition patternWeb : regex :=
  Seq (Lit "https://github.com/")
    (Seq name (Seq (Lit "/") (Seq name (Opt (Lit "/"))))).

(** [/^git@github\.com:[a-zA-Z0-9_.-]+\/[a-zA-Z0-9_.-]+\.git$/] *)
Definition patternSsh : regex :=
  Seq (Lit "git@github.com:")
    (Seq name (Seq (Lit "/") (Seq name (Lit ".git")))).

(** [/^https:\/\/github\.com\/[a-zA-Z0-9_.-]+\/[a-zA-Z0-9_.-]+\.git$/] *)
Definition patternWebGit : regex :=
  Seq (Lit "https://github.com/")
    (Seq name (Seq (Lit "/") (Seq name (Lit ".git")))).

Definition githubPatterns : list regex :=
  [patternWeb; patternSsh; patternWebGit].

Definition validateGitHubUrl (url : string) : bool :=
  existsb (fun pattern => test pattern (trim url)) githubPatterns.

(** The longest prefix of [s] whose characters satisfy [p], and the rest. *)
Fixpoint span (p : Ascii.ascii -> bool) (s : string) : string * string :=
  match s with
  | EmptyString => (EmptyString, EmptyString)
  | String c r =>
      if p c then let '(a, b) := span p r in (String c a, b)
      else (EmptyString, s)
  end.

Fixpoint dropString (n : nat) (s : string) : string :=
  match n, s with
  | O, _ => s
  | S n', String _ r => dropString n' r
  | S _, EmptyString => EmptyString
  end.

(** An attempt to match [github\.com\/([^\/]+)\/([^\/\.]+)] at the start
    of [s]; the groups are greedy and each is fixed by the first character
    outside its class. *)
Definition matchRepoAt (s : string) : option (string * string) :=
  if String.prefix "github.com/" s then
    let '(owner, rest) :=
      span (fun c => negb (Ascii.eqb c "/"%char)) (dropString 11 s) in
    match owner, rest with
    | String _ _, String _ rest' =>
        let '(repo, _) :=
          span (fun c => negb (Ascii.eqb c "/"%char || Ascii.eqb c "."%char))
            rest' in
        match repo with
        | String _ _ => Some (owner, repo)
        | EmptyString => None
        end
    | _, _ => None
    end
  else None.

Record RepoInfo := { owner : string; repo : string }.

(** [url.match(/github\.com\/([^\/]+)\/([^\/\.]+)/)]: the leftmost match. *)
Fixpoint extractRepoInfo (url : string) : option RepoInfo :=
  match matchRepoAt url with
  | Some (o, r) => Some {| owner := o; repo := r |}
  | None =>
      match url with
      | EmptyString => None
      | String _ rest => extractRepoInfo rest
      end
  end.

End Api.

(** ** components/RepoInput.jsx *)

Module RepoInput.

Import Api.

(** The component state ([useState] cells). *)
Record State := {
  repoUrl : string;
  branch : string;
  isValid : bool;
  showValidation : bool
}.

Definition init : State :=
  {| repoUrl := ""; branch := "main"; isValid := false;
     showValidation := false |}.

(** The argument of [onAnalyze]; it is the body of [POST /analyze-repo]. *)
Record RepoData := {
  repo_url : string;
  repo_branch : string;
  repo_name : string
}.

Definition exampleRepos : list string :=
  [ "https://github.com/microsoft/vscode";
    "https://github.com/facebook/react";
    "https://github.com/tensorflow/tensorflow";
    "https://github.com/pallets/flask" ].

Definition handleUrlChange (url : string) (st : State) : State :=
  {| repoUrl := url;
     branch := branch st;
     isValid := validateGitHubUrl url;
     showValidation := negb (String.eqb url "") |}.

Definition setBranch (b : string) (st : State) : State :=
  {| repoUrl := repoUrl st; branch := b; isValid := isValid st;
     showValidation := showValidation st |}.

Definition handleExampleClick (url : string) (st : State) : State :=
  {| repoUrl := url; branch := branch st; isValid := true;
     showValidation := true |}.

(** [handleSubmit]: the state is not touched; the result is the call of
    [onAnalyze], if there is one. *)
Definition handleSubmit (isLoading : bool) (st : State)
    : State * option RepoData :=
  if isValid st && negb isLoading then
    let repoInfo := extractRepoInfo (repoUrl st) in
    (st,
     Some {| repo_url := trim (repoUrl st);
             repo_branch := JS.or_str (Some (branch st)) "main";
             repo_name := match repoInfo with
                          | Some i => owner i ++ "/" ++ repo i
                          | None => "unknown"
                          end |})
  else (st, None).

(** What the user can do with the form before submitting it.  An example
    button exists for each entry of [exampleRepos] only. *)
Inductive Event :=
| TypeUrl (url : string)
| TypeBranch (b : string)
| ClickExample (i : nat).

Definition handle (st : State) (ev : Event) : State :=
  match ev with
  | TypeUrl url => handleUrlChange url st
  | TypeBranch b => setBranch b st
  | ClickExample i =>
      match exampleRepos !! i with
      | Some url => handleExampleClick url st
      | None => st
      end
  end.

(** The state of a freshly mounted form after a sequence of events. *)
Definition run (evs : list Event) : State := foldl handle init evs.

End RepoInput.

(** ** App.js *)

Module App.

Import Api RepoInput.

(** The payload of a successful [POST /analyze-repo]. *)
Record AnalysisData := {
  files : list FileRecord;
  analysis : list AnalysisEntry;
  quality_score : option JS.num
}.

Inductive Tab := overview | explorer | documentation | quality.

Inductive Health := checking | healthy | unhealthy.

Record State := {
  analysisData : option AnalysisData;
  isLoading : bool;
  error : option string;
  currentRepo : option RepoData;
  searchResults : option (list string);
  activeTab : Tab;
  backendHealth : Health
}.

Definition init : State :=
  {| analysisData := None; isLoading := false; error := None;
     currentRepo := None; searchResults := None; activeTab := overview;
     backendHealth := checking |}.

(** [handleAnalyzeRepo] up to its [await]: the state it leaves and the
    request it has sent. *)
Definition handleAnalyzeRepo_begin (repoData : RepoData) (st : State)
    : State * RepoData :=
  ({| analysisData := None; isLoading := true; error := None;
      currentRepo := Some repoData; searchResults := None;
      activeTab := activeTab st; backendHealth := backendHealth st |},
   repoData).

(** [handleAnalyzeRepo] after its [await]: [res] is how the HTTP request
    settled; [apiService.analyzeRepository] stands between the request and
    the [try]/[catch] of the handler. *)
Definition handleAnalyzeRepo_settle (res : Settled AnalysisData)
    (st : State) : State :=
  match analyzeRepository res with
  | Fulfilled result =>
      {| analysisData := Some result; isLoading := false;
         error := error st; currentRepo := currentRepo st;
         searchResults := searchResults st; activeTab := overview;
         backendHealth := backendHealth st |}
  | Rejected err =>
      {| analysisData := analysisData st; isLoading := false;
         error := Some (formatError err); currentRepo := currentRepo st;
         searchResults := searchResults st; activeTab := activeTab st;
         backendHealth := backendHealth st |}
  end.

Definition clearAnalysis (st : State) : State :=
  {| analysisData := None; isLoading := isLoading st; error := None;
     currentRepo := None; searchResults := None; activeTab := overview;
     backendHealth := backendHealth st |}.

(** The form is mounted as
    [<RepoInput onAnalyze={handleAnalyzeRepo} isLoading={isLoading} />]:
    a submission of the form runs [handleAnalyzeRepo] when, and only when,
    [handleSubmit] calls [onAnalyze].  The result is the application
    state, the form state and the request sent to the backend, if any. *)
Definition submit (app : State) (form : RepoInput.State)
    : State * RepoInput.State * option RepoData :=
  match handleSubmit (isLoading app) form with
  | (form', Some repoData) =>
      let '(app', request) := handleAnalyzeRepo_begin repoData app in
      (app', form', Some request)
  | (form', None) => (app, form', None)
  end.

End App.

(** ** components/CodeExplorer.jsx *)

Module CodeExplorer.

Import Api.

(** *** The file tree *)

(** A node of the tree: [{type: "file", name, path, content, language,
    size}] or [{type: "folder", name, children}].  The [children] object is
    kept as the list of its own entries, in insertion order, together with
    its prototype: [None] for [Object.prototype], which every [{}] starts
    with, and [Some file] once the node of [file] has been assigned to
    [children["__proto__"]]. *)
#[warnings="-register-all"]
Inductive Node :=
| FileNode (name : string) (file : FileRecord)
| FolderNode (name : string) (children : list (string * Node))
    (proto : option FileRecord).

(** How a call completes: with a value, or with the [TypeError] raised by
    reading or writing a property of [undefined]. *)
Inductive Completion (A : Type) :=
| Returns (v : A)
| ThrowsTypeError.
Arguments Returns {A} v.
Arguments ThrowsTypeError {A}.

(** [children[k]] *)
Fixpoint getChild (children : list (string * Node)) (k : string)
    : option Node :=
  match children with
  | [] => None
  | (k', v) :: rest => if String.eqb k' k then Some v else getChild rest k
  end.

(** [children[k] = v]: an existing entry keeps its place, a new one goes
    last. *)
Fixpoint setChild (children : list (string * Node)) (k : string) (v : Node)
    : list (string * Node) :=
  match children with
  | [] => [(k, v)]
  | (k', v') :: rest =>
      if String.eqb k' k then (k, v) :: rest
      else (k', v') :: setChild rest k v
  end.

(** [s.split("/")]: never empty. *)
Fixpoint split (s : string) : list string :=
  match s with
  | EmptyString => [EmptyString]
  | String c r =>
      if Ascii.eqb c "/"%char then EmptyString :: split r
      else match split r with
           | h :: t => String c h :: t
           | [] => [String c EmptyString]
           end
  end.

(** What [children[k]] evaluates to: a node stored under [k], some other
    value that counts as true (a function, an object or a non-empty string
    found on the prototype chain), or a value that counts as false. *)
Inductive Property :=
| OwnNode (node : Node)
| Truthy
| Falsy.

(** The fields of a file node called [__proto__], as conditions. *)
Definition fileNodeField (file : FileRecord) (k : string) : option bool :=
  if String.eqb k "type" then Some true
  else if String.eqb k "name" then Some true
  else if String.eqb k "path" then Some (negb (String.eqb (path file) ""))
  else if String.eqb k "content" then
    Some (negb (String.eqb (content file) ""))
  else if String.eqb k "language" then
    Some (negb (String.eqb (file_language file) ""))
  else if String.eqb k "size" then Some (negb (Nat.eqb (size file) 0))
  else None.

(** A property that is not an own one is looked up in the prototype. *)
Definition inheritedProperty (proto : option FileRecord) (k : string)
    : Property :=
  match proto ≫= (fun file => fileNodeField file k) with
  | Some true => Truthy
  | Some false => Falsy
  | None => if JS.inheritedKey k then Truthy else Falsy
  end.

Definition getProperty (children : list (string * Node))
    (proto : option FileRecord) (k : string) : Property :=
  match getChild children k with
  | Some node => OwnNode node
  | None => inheritedProperty proto k
  end.

(** The inner [parts.forEach] of [buildFileTree], started at [current]:
    the node [current] after the walk.
    - At the last segment the file node is assigned to
      [current.children[part]]; for the segment [__proto__] the assignment
      replaces the prototype of [children] and adds no entry.
    - At an inner segment a folder is created unless [current.children[part]]
      counts as true, and the walk moves to [current.children[part]].
    - Only a folder has [children]: a step from a file node, or from an
      inherited value the walk has moved to, is a [TypeError]. *)
Fixpoint insertParts (parts : list string) (file : FileRecord)
    (current : Node) : Completion Node :=
  match parts with
  | [] => Returns current
  | part :: rest =>
      match current with
      | FileNode _ _ => ThrowsTypeError
      | FolderNode name children proto =>
          match rest with
          | [] =>
              if String.eqb part "__proto__"
              then Returns (FolderNode name children (Some file))
              else Returns (FolderNode name
                              (setChild children part (FileNode part file))
                              proto)
          | _ :: _ =>
              let walk (next : Node) :=
                match insertParts rest file next with
                | Returns next' =>
                    Returns (FolderNode name (setChild children part next')
                               proto)
                | ThrowsTypeError => ThrowsTypeError
                end in
              match getProperty children proto part with
              | OwnNode child => walk child
              | Truthy => ThrowsTypeError
              | Falsy => walk (FolderNode part [] None)
              end
          end
      end
  end.

Definition root : Node := FolderNode "root" [] None.

(** One iteration of the outer [files.forEach]. *)
Definition addFile (tree : Completion Node) (file : FileRecord)
    : Completion Node :=
  match tree with
  | Returns t => insertParts (split (path file)) file t
  | ThrowsTypeError => ThrowsTypeError
  end.

Definition buildFileTree (files : list FileRecord) : Completion Node :=
  foldl addFile (Returns root) files.

(** *** Selection and explanation *)

(** The body of [POST /explain-code]. *)
Record ExplainRequest := {
  req_file_path : string;
  code_snippet : string;
  req_language : string;
  context : string
}.

Record Explanation := {
  explanation_text : string;
  key_concepts : list string;
  best_practices : list string;
  potential_issues : list string
}.

Record State := {
  selectedFile : option FileRecord;
  explanation : option Explanation;
  isExplaining : bool;
  selectedCode : string
}.

Definition init : State :=
  {| selectedFile := None; explanation := None; isExplaining := false;
     selectedCode := "" |}.

Definition selectFile (file : FileRecord) (st : State) : State :=
  {| selectedFile := Some file; explanation := None;
     isExplaining := isExplaining st; selectedCode := "" |}.

(** [handleEditorSelectionChange]: [selectedText] is the text of a
    non-empty editor selection, if there is one. *)
Definition handleEditorSelectionChange (selectedText : option string)
    (st : State) : State :=
  {| selectedFile := selectedFile st; explanation := explanation st;
     isExplaining := isExplaining st;
     selectedCode := match selectedText with
                     | Some t => t
                     | None => ""
                     end |}.

(** [explainCode] up to its [await]: the state it leaves and the request
    it has sent, if any. *)
Definition explainCode_begin (st : State) : State * option ExplainRequest :=
  match selectedCode st, selectedFile st with
  | String _ _ as code, Some file =>
      ({| selectedFile := selectedFile st; explanation := explanation st;
          isExplaining := true; selectedCode := selectedCode st |},
       Some {| req_file_path := path file;
               code_snippet := code;
               req_language := file_language file;
               context := "From file " ++ path file
                          ++ " in repository analysis" |})
  | _, _ => (st, None)
  end.

Definition fallbackExplanation : Explanation :=
  {| explanation_text := "Failed to generate explanation. Please try again.";
     key_concepts := []; best_practices := []; potential_issues := [] |}.

(** [explainCode] after its [await]: [res] is how the HTTP request
    settled.  The continuation reads nothing of the current selection. *)
Definition explainCode_settle (res : Settled Explanation) (st : State)
    : State :=
  let shown :=
    match Api.explainCode res with
    | Fulfilled response => response
    | Rejected _ => fallbackExplanation
    end in
  {| selectedFile := selectedFile st; explanation := Some shown;
     isExplaining := false; selectedCode := selectedCode st |}.

(** The component together with the requests it has in flight. *)
Record Session := {
  ui : State;
  inflight : list ExplainRequest
}.

Definition start : Session := {| ui := init; inflight := [] |}.

(** What can happen to the component: a click on a file of the tree, a
    change of the editor selection, a click on the explain button, and the
    settling of the [i]-th request in flight. *)
Inductive Event :=
| ClickFile (file : FileRecord)
| ChangeSelection (selectedText : option string)
| ClickExplain
| Settle (i : nat) (res : Settled Explanation).

(** The explain button is rendered when [selectedCode] is not empty and is
    disabled while [isExplaining]. *)
Definition explainEnabled (st : State) : bool :=
  negb (String.eqb (selectedCode st) "") && negb (isExplaining st).

Definition step (s : Session) (ev : Event) : Session :=
  match ev with
  | ClickFile file =>
      {| ui := selectFile file (ui s); inflight := inflight s |}
  | ChangeSelection t =>
      {| ui := handleEditorSelectionChange t (ui s);
         inflight := inflight s |}
  | ClickExplain =>
      if explainEnabled (ui s) then
        match explainCode_begin (ui s) with
        | (st, Some req) => {| ui := st; inflight := inflight s ++ [req] |}
        | (st, None) => {| ui := st; inflight := inflight s |}
        end
      else s
  | Settle i res =>
      match inflight s !! i with
      | Some _ =>
          {| ui := explainCode_settle res (ui s);
             inflight := delete i (inflight s) |}
      | None => s
      end
  end.

Definition run (evs : list Event) : Session := foldl step start evs.

End CodeExplorer.

(** ** Measures of a file tree *)

Module Tree.

Import CodeExplorer.

(** The number of file nodes of a tree. *)
Fixpoint countFiles (t : Node) : nat :=
  match t with
  | FileNode _ _ => 1
  | FolderNode _ children _ =>
      foldr (fun kc n => countFiles kc.2 + n)%nat 0%nat children
  end.

(** The number of folder nodes of a tree, the tree itself included. *)
Fixpoint countFolders (t : Node) : nat :=
  match t with
  | FileNode _ _ => 0
  | FolderNode _ children _ =>
      S (foldr (fun kc n => countFolders kc.2 + n)%nat 0%nat children)
  end.

(** The folders below the root. *)
Definition countNonRootFolders (t : Node) : nat := pred (countFolders t).

(** The paths, as lists of segments from [t], of the file nodes of [t]. *)
Fixpoint filePaths (t : Node) : list (list string) :=
  match t with
  | FileNode _ _ => [[]]
  | FolderNode _ children _ =>
      foldr (fun kc acc => (cons kc.1 <$> filePaths kc.2) ++ acc)%list []
        children
  end.

(** The paths of the folder nodes of [t]; [[]] is [t] itself. *)
Fixpoint folderPaths (t : Node) : list (list string) :=
  match t with
  | FileNode _ _ => []
  | FolderNode _ children _ =>
      [] :: foldr (fun kc acc => (cons kc.1 <$> folderPaths kc.2) ++ acc)%list []
              children
  end.

(** At every folder the entries of [children] have distinct keys and the
    prototype of [children] is the one it was created with. *)
Fixpoint wf (t : Node) : Prop :=
  match t with
  | FileNode _ _ => True
  | FolderNode _ children proto =>
      proto = None
      /\ NoDup children.*1
      /\ foldr (fun kc acc => wf kc.2 /\ acc) True children
  end.

Definition isFolder (t : Node) : bool :=
  match t with
  | FolderNode _ _ _ => true
  | FileNode _ _ => false
  end.

(** No segment of the path is the name of an inherited property. *)
Definition plainSegments (parts : list string) : bool :=
  forallb (fun part => negb (JS.inheritedKey part)) parts.

(** The segments of the path of a file. *)
Definition partsOf (file : FileRecord) : list string := split (path file).

(** The non-empty proper prefixes of a list of segments: the folders on
    the way to the file. *)
Fixpoint properPrefixes (parts : list string) : list (list string) :=
  match parts with
  | [] => []
  | part :: rest =>
      match rest with
      | [] => []
      | _ :: _ => [part] :: (cons part <$> properPrefixes rest)
      end
  end.

(** [p] is a prefix of [q] and shorter than it. *)
Fixpoint isProperPrefix (p q : list string) : bool :=
  match p, q with
  | [], _ :: _ => true
  | x :: p', y :: q' => String.eqb x y && isProperPrefix p' q'
  | _, [] => false
  end.

(** No path of the list is a proper prefix of another one: no file sits
    where another file needs a folder. *)
Definition prefixFree (paths : list (list string)) : bool :=
  forallb (fun p => forallb (fun q => negb (isProperPrefix p q)) paths)
    paths.

(** [parts.join("/")], the inverse of [split]. *)
Fixpoint join (parts : list string) : string :=
  match parts with
  | [] => ""
  | part :: rest =>
      match rest with
      | [] => part
      | _ :: _ => part ++ "/" ++ join rest
      end
  end.

(** The tree [t] holds the files [files]: it is a well-formed folder, its
    file nodes sit at the paths of the files and its folders at the proper
    prefixes of these paths. *)
Definition represents (files : list FileRecord) (t : Node) : Prop :=
  wf t /\ isFolder t = true
  /\ (forall q, q ∈ filePaths t <-> q ∈ partsOf <$> files)
  /\ (forall q, q ∈ folderPaths t
                <-> q = [] \/ q ∈ files ≫= (fun f => properPrefixes (partsOf f))).

(** No path of the list has a segment that names an inherited property. *)
Definition plainPaths (files : list FileRecord) : bool :=
  forallb (fun f => plainSegments (partsOf f)) files.

(** The number of distinct paths, and of distinct proper prefixes of the
    paths, of a file list. *)
Definition distinctPaths (files : list FileRecord) : nat :=
  length (remove_dups (partsOf <$> files)).

Definition distinctProperPrefixes (files : list FileRecord) : nat :=
  length (remove_dups (files ≫= (fun f => properPrefixes (partsOf f)))).

(** Induction on a tree with the hypothesis for every child of a folder. *)
Section NodeInduction.

Variable P : Node -> Prop.
Hypothesis Hfile : forall name file, P (FileNode name file).
Hypothesis Hfolder : forall name children proto,
  Forall (fun kc => P kc.2) children -> P (FolderNode name children proto).

Fixpoint Node_children_ind (t : Node) : P t :=
  match t with
  | FileNode name file => Hfile name file
  | FolderNode name children proto =>
      Hfolder name children proto
        ((fix go (l : list (string * Node))
            : Forall (fun kc => P kc.2) l :=
            match l with
            | [] => List.Forall_nil _
            | kc :: l' =>
                List.Forall_cons _ kc l' (Node_children_ind kc.2) (go l')
            end) children)
  end.

End NodeInduction.

End Tree.

(** ** components/QualityScore.jsx: the colour of a score *)

Module ScoreColors.

Import JS.
Local Open Scope Qc_scope.

(** [getScoreColor(score, reverse = false)] *)
Definition getScoreColor (score : num) (reverse : bool) : string :=
  let score := if reverse then of_Z 10 - score else score in
  if geb score (of_Z 8) then "text-green-600"
  else if geb score (of_Z 6) then "text-yellow-600"
  else "text-red-600".

(** [getScoreBgColor(score, reverse = false)] *)
Definition getScoreBgColor (score : num) (reverse : bool) : string :=
  let score := if reverse then of_Z 10 - score else score in
  if geb score (of_Z 8) then "bg-green-500"
  else if geb score (of_Z 6) then "bg-yellow-500"
  else "bg-red-500".

End ScoreColors.

(** ** Specification-side definitions for the metrics *)

Module MetricsSpec.

Import JS.
Local Open Scope Qc_scope.

(** A score that is present lies between 0 and 10. *)
Definition scoreInRange (x : option num) : Prop :=
  match x with
  | Some v => 0 <= v /\ v <= of_Z 10
  | None => True
  end.

Definition scoresInRange (a : AnalysisEntry) : Prop :=
  scoreInRange (complexity_score a) /\ scoreInRange (documentation_quality a).

(** The entries of an analysis with a given language tag, in order. *)
Definition languageGroup (lang : string) (analysis : list AnalysisEntry)
    : list AnalysisEntry :=
  List.filter (fun a => String.eqb (language a) lang) analysis.

(** One step of the accumulation of [languageStats] for entries of one
    language, and the entry of a whole group after the final division. *)
Definition stepStat (s : QualityScore.LangStat) (a : AnalysisEntry)
    : QualityScore.LangStat :=
  {| QualityScore.count := S (QualityScore.count s);
     QualityScore.avgComplexity :=
       QualityScore.avgComplexity s + or_num (complexity_score a) 0;
     QualityScore.avgDoc :=
       QualityScore.avgDoc s + or_num (documentation_quality a) 0 |}.

Definition groupStat (g : list AnalysisEntry) : QualityScore.LangStat :=
  {| QualityScore.count := length g;
     QualityScore.avgComplexity :=
       QualityScore.mean (map (fun a => or_num (complexity_score a) 0) g);
     QualityScore.avgDoc :=
       QualityScore.mean (map (fun a => or_num (documentation_quality a) 0) g) |}.




End MetricsSpec.

(** ** The strings a regular expression matches *)

Module RegexSpec.

Import Regex.

(** The language of a regular expression, the reference the matcher is
    compared with. *)
Inductive Matches : regex -> string -> Prop :=
| MatchesEps : Matches Eps ""
| MatchesClass (p : Ascii.ascii -> bool) (c : Ascii.ascii) :
    p c = true -> Matches (Class p) (String c "")
| MatchesSeq (r1 r2 : regex) (s1 s2 : string) :
    Matches r1 s1 -> Matches r2 s2 -> Matches (Seq r1 r2) (s1 ++ s2)
| MatchesAltL (r1 r2 : regex) (s : string) :
    Matches r1 s -> Matches (Alt r1 r2) s
| MatchesAltR (r1 r2 : regex) (s : string) :
    Matches r2 s -> Matches (Alt r1 r2) s
| MatchesStarNil (r : regex) : Matches (Star r) ""
| MatchesStarApp (r : regex) (s1 s2 : string) :
    Matches r s1 -> Matches (Star r) s2 -> Matches (Star r) (s1 ++ s2).

(** Every character of the string satisfies [p]. *)
Fixpoint allChars (p : Ascii.ascii -> bool) (s : string) : bool :=
  match s with
  | EmptyString => true
  | String c r => p c && allChars p r
  end.

(** A repository or owner name as the patterns want it: not empty, made of
    letters, digits, [_], [.] and [-]. *)
Definition isName (s : string) : bool :=
  negb (String.eqb s "") && allChars Api.nameChar s.

(** The number of occurrences of a character in a string. *)
Fixpoint countChar (c : Ascii.ascii) (s : string) : nat :=
  match s with
  | EmptyString => 0
  | String c' r => (if Ascii.eqb c' c then 1 else 0) + countChar c r
  end.

End RegexSpec.

(** ** The shapes of a repository reference *)

Module ReferenceSpec.

(** [https://github.com/owner/repo] and [git@github.com:owner/repo.git]. *)
Definition webReference (owner repo : string) : string :=
  "https://github.com/" ++ owner ++ "/" ++ repo.

Definition sshReference (owner repo : string) : string :=
  "git@github.com:" ++ owner ++ "/" ++ repo ++ ".git".

(** The classes [[^\/]] and [[^\/\.]] of [extractRepoInfo]. *)
Definition notSlash (c : Ascii.ascii) : bool := negb (Ascii.eqb c "/"%char).

Definition notSlashDot (c : Ascii.ascii) : bool :=
  negb (Ascii.eqb c "/"%char || Ascii.eqb c "."%char).

End ReferenceSpec.

(** ** components/CodeExplorer.jsx: the folders of the tree and the search box *)

Module ExplorerView.

Import Api CodeExplorer.

(** [expandedFolders] starts as [new Set(["root"])]. *)
Definition initExpanded : gset string := {[ "root" ]}.

(** [toggleFolder] *)
Definition toggleFolder (path : string) (expandedFolders : gset string)
    : gset string :=
  if bool_decide (path ∈ expandedFolders)
  then expandedFolders ∖ {[ path ]}
  else expandedFolders ∪ {[ path ]}.

(** The [path] a [FileTreeNode] gives to the child called [name]:
    [`${path}/${name}`]. *)
Definition childPath (path name : string) : string := path ++ "/" ++ name.

(** The [path] of the [FileTreeNode] reached from the root node along the
    given keys. *)
Definition nodePath (segments : list string) : string :=
  foldl childPath "root" segments.

(** [handleSearch] of the explorer: the argument of [onSearch], if it is
    called. *)
Definition handleSearch (searchQuery : string) : option string :=
  match trim searchQuery with
  | EmptyString => None
  | String _ _ as query => Some query
  end.

(** The node stored along a path of own keys: [FileTreeNode] descends
    through [Object.entries(node.children)]. *)
Fixpoint findNode (parts : list string) (t : Node) : option Node :=
  match parts with
  | [] => Some t
  | part :: rest =>
      match t with
      | FileNode _ _ => None
      | FolderNode _ children _ => getChild children part ≫= findNode rest
      end
  end.

(** A string without a slash. *)
Definition slashFree (s : string) : bool :=
  RegexSpec.allChars ReferenceSpec.notSlash s.

(** Every key of the tree, at any depth, satisfies [P]. *)
Fixpoint allKeys (P : string -> bool) (t : Node) : bool :=
  match t with
  | FileNode _ _ => true
  | FolderNode _ children _ =>
      forallb (fun kc => P kc.1 && allKeys P kc.2) children
  end.

(** A session of the explorer asks for one explanation at a time: either
    nothing is in flight and the button is idle, or [isExplaining] holds and
    the one request in flight carries a selection that is not empty. *)
Definition oneAtATime (s : Session) : Prop :=
  (isExplaining (ui s) = false /\ inflight s = [])
  \/ (isExplaining (ui s) = true
      /\ exists req, inflight s = [req] /\ code_snippet req <> ""
           /\ context req
              = "From file " ++ req_file_path req ++ " in repository analysis").

End ExplorerView.

(** ** App.js: search, health check and the panels of the page *)

Module AppSession.

Import Api RepoInput App.

(** The body of [POST /search-code]. *)
Record SearchRequest := {
  query : string;
  search_repo_name : string;
  limit : nat
}.

(** [handleSearch] up to its [await]: the request sent, if any.  The state
    is not touched. *)
Definition handleSearch_begin (q : string) (st : State)
    : option SearchRequest :=
  match currentRepo st with
  | Some repoData =>
      Some {| query := q; search_repo_name := repo_name repoData;
              limit := 10 |}
  | None => None
  end.

(** [handleSearch] after its [await]. *)
Definition handleSearch_settle (res : Settled (list string)) (st : State)
    : State :=
  match searchCode res with
  | Fulfilled results =>
      {| analysisData := analysisData st; isLoading := isLoading st;
         error := error st; currentRepo := currentRepo st;
         searchResults := Some results; activeTab := activeTab st;
         backendHealth := backendHealth st |}
  | Rejected _ => st
  end.

(** [apiService.healthCheck] *)
Definition healthCheck {A} (res : Settled A) : Settled A :=
  match res with
  | Fulfilled d => Fulfilled d
  | Rejected _ => Rejected (newError "Backend health check failed")
  end.

(** [checkBackendHealth] after its [await]. *)
Definition checkBackendHealth_settle {A} (res : Settled A) (st : State)
    : State :=
  {| analysisData := analysisData st; isLoading := isLoading st;
     error := error st; currentRepo := currentRepo st;
     searchResults := searchResults st; activeTab := activeTab st;
     backendHealth := match healthCheck res with
                      | Fulfilled _ => healthy
                      | Rejected _ => unhealthy
                      end |}.

Definition setActiveTab (tab : Tab) (st : State) : State :=
  {| analysisData := analysisData st; isLoading := isLoading st;
     error := error st; currentRepo := currentRepo st;
     searchResults := searchResults st; activeTab := tab;
     backendHealth := backendHealth st |}.

(** What the page renders. *)

(** [{!analysisData && !isLoading && <RepoInput ... />}] *)
Definition formShown (st : State) : bool :=
  negb (bool_decide (is_Some (analysisData st))) && negb (isLoading st).

(** [{error && ...}]: the panel with the button "Try Again". *)
Definition errorShown (st : State) : bool :=
  match error st with
  | Some msg => negb (String.eqb msg "")
  | None => false
  end.

(** [{analysisData && ...}]: the banner, the tabs and the button
    "New Analysis". *)
Definition resultShown (st : State) : bool :=
  bool_decide (is_Some (analysisData st)).

(** [{activeTab === "explorer" && <CodeExplorer ... onSearch={handleSearch} />}],
    inside the result. *)
Definition explorerShown (st : State) : bool :=
  resultShown st
  && match activeTab st with
     | explorer => true
     | _ => false
     end.

(** The page together with the requests it has in flight. *)
Record Session := {
  app : State;
  analyses : list RepoData;
  searches : list SearchRequest
}.

Definition start : Session :=
  {| app := App.init; analyses := []; searches := [] |}.

(** What can happen to the page: a submission of the form in some state,
    the settling of a request in flight, a click on a button that is
    rendered, a search from the explorer. *)
Inductive Event :=
| SubmitForm (form : RepoInput.State)
| SettleAnalysis (i : nat) (res : Settled AnalysisData)
| ClickNewAnalysis
| ClickTryAgain
| ClickTab (tab : Tab)
| SubmitSearch (searchQuery : string)
| SettleSearch (i : nat) (res : Settled (list string))
| SettleHealth (res : Settled unit).

Definition withApp (s : Session) (st : State) : Session :=
  {| app := st; analyses := analyses s; searches := searches s |}.

Definition step (s : Session) (ev : Event) : Session :=
  match ev with
  | SubmitForm form =>
      if formShown (app s) then
        match submit (app s) form with
        | (app', _, Some request) =>
            {| app := app'; analyses := analyses s ++ [request];
               searches := searches s |}
        | (app', _, None) => withApp s app'
        end
      else s
  | SettleAnalysis i res =>
      match analyses s !! i with
      | Some _ =>
          {| app := handleAnalyzeRepo_settle res (app s);
             analyses := delete i (analyses s);
             searches := searches s |}
      | None => s
      end
  | ClickNewAnalysis =>
      if resultShown (app s) then withApp s (clearAnalysis (app s)) else s
  | ClickTryAgain =>
      if errorShown (app s) then withApp s (clearAnalysis (app s)) else s
  | ClickTab tab =>
      if resultShown (app s) then withApp s (setActiveTab tab (app s)) else s
  | SubmitSearch searchQuery =>
      if explorerShown (app s) then
        match ExplorerView.handleSearch searchQuery
              ≫= (fun q => handleSearch_begin q (app s)) with
        | Some request =>
            {| app := app s; analyses := analyses s;
               searches := searches s ++ [request] |}
        | None => s
        end
      else s
  | SettleSearch i res =>
      match searches s !! i with
      | Some _ =>
          {| app := handleSearch_settle res (app s);
             analyses := analyses s;
             searches := delete i (searches s) |}
      | None => s
      end
  | SettleHealth res => withApp s (checkBackendHealth_settle res (app s))
  end.

Definition run (evs : list Event) : Session := foldl step start evs.

(** The four phases of the page. *)
Inductive Phase := Idle | Loading | Result | Failed.

(** The session is in the given phase: the flags of any two phases exclude
    each other, and a request is in flight in [Loading] only. *)
Inductive InPhase (s : Session) : Phase -> Prop :=
| InIdle :
    isLoading (app s) = false -> analysisData (app s) = None ->
    error (app s) = None -> analyses s = [] -> InPhase s Idle
| InLoading (request : RepoData) :
    isLoading (app s) = true -> analysisData (app s) = None ->
    error (app s) = None -> analyses s = [request] ->
    currentRepo (app s) = Some request -> InPhase s Loading
| InResult :
    isLoading (app s) = false -> is_Some (analysisData (app s)) ->
    error (app s) = None -> analyses s = [] ->
    is_Some (currentRepo (app s)) -> InPhase s Result
| InFailed (msg : string) :
    isLoading (app s) = false -> analysisData (app s) = None ->
    error (app s) = Some msg -> msg <> "" -> analyses s = [] ->
    InPhase s Failed.

(** The panels of the page that hold the spinner, the result and the error
    message. *)
Definition panelsShown (st : State) : nat :=
  Nat.b2n (isLoading st) + Nat.b2n (resultShown st) + Nat.b2n (errorShown st).

End AppSession.

(** ** Reference inputs and specification-side definitions *)

Module Samples.

Import JS.

Definition entry (p lang : string) (c d : option num) : AnalysisEntry :=
  {| file_path := p; language := lang;
     complexity_score := c; documentation_quality := d |}.

(** The error axios rejects with when the backend answers with an error
    status [st] and a body whose [detail] is [d]. *)
Definition httpError (st : nat) (d : option string) : Api.Error :=
  {| Api.response :=
       Some {| Api.status := st;
               Api.data := Some {| Api.detail := d |} |};
     Api.code := Some (if (st <? 500)%nat then "ERR_BAD_REQUEST"
                       else "ERR_BAD_RESPONSE");
     Api.message := "Request failed with status code " ++ pretty st |}.

Definition file (p : string) : FileRecord :=
  {| path := p; content := ""; file_language := "javascript"; size := 0 |}.

(** A payload of the explanation service. *)
Definition explained (txt : string) : CodeExplorer.Explanation :=
  {| CodeExplorer.explanation_text := txt;
     CodeExplorer.key_concepts := ["closures"];
     CodeExplorer.best_practices := [];
     CodeExplorer.potential_issues := [] |}.

(** An analysis entry with binary64 scores. *)
Definition entry64 (p lang : string) (c d : option float)
    : Binary64.AnalysisEntry :=
  {| Binary64.file_path := p; Binary64.language := lang;
     Binary64.complexity_score := c; Binary64.documentation_quality := d |}.

End Samples.

(** * Properties *)

(** ** Numbers *)

Module JSFacts.

Import JS.
Local Open Scope Qc_scope.

Lemma ltb_lt (x y : num) : ltb x y = true <-> x < y.
Proof.
  unfold ltb, Qccompare, Qclt. rewrite Qlt_alt.
  destruct (this x ?= this y)%Q; split; congruence.
Qed.

Lemma ltb_ge (x y : num) : ltb x y = false <-> y <= x.
Proof.
  rewrite <- not_true_iff_false, ltb_lt. split.
  - apply Qcnot_lt_le.
  - apply Qcle_not_lt.
Qed.




Lemma truthy_Some (v : num) : truthy (Some v) = bool_decide (v <> 0).
Proof.
  unfold truthy, Qc_eq_bool.
  destruct (Qcanon.Qc_eq_dec v 0) as [e|n]; cbn [negb]; symmetry.
  - apply bool_decide_eq_false_2. auto.
  - apply bool_decide_eq_true_2. exact n.
Qed.

Lemma or_num_None (d : num) : or_num None d = d.
Proof. reflexivity. Qed.

Lemma or_num_zero (d : num) : or_num (Some 0) d = d.
Proof. reflexivity. Qed.

Lemma or_num_nonzero (v d : num) : v <> 0 -> or_num (Some v) d = v.
Proof.
  intros Hv. unfold or_num. rewrite truthy_Some.
  rewrite bool_decide_eq_true_2; auto.
Qed.

(** [x || 0] is [x] itself whenever [x] is a number. *)
Lemma or_num_0 (v : num) : or_num (Some v) 0 = v.
Proof.
  destruct (decide (v = 0)) as [->|Hv]; [reflexivity|].
  by apply or_num_nonzero.
Qed.

(** A left fold whose step commutes does not see the order of the list. *)
Lemma foldl_Permutation {A B} (f : B -> A -> B) :
  (forall b x y, f (f b x) y = f (f b y) x) ->
  forall l l', l ≡ₚ l' -> forall b, foldl f b l = foldl f b l'.
Proof.
  intros Hf l l' Hp. induction Hp; intros b; simpl.
  - reflexivity.
  - apply IHHp.
  - by rewrite Hf.
  - by rewrite IHHp1.
Qed.

End JSFacts.

(** ** Quality metrics *)

Module QualityScoreFacts.

Import JS JSFacts QualityScore.
Local Open Scope Qc_scope.

(** Numbers are compared through their fractions. *)
Ltac num_eq := apply Qc_is_canon; vm_compute; reflexivity.

(** *** Empty input *)

(** C2, as stated, fails: on the empty analysis with no files and no
    backend score the maintainability and overall scores are not [0]. *)
Lemma empty_input_scores_not_all_zero :
  ~ (let m := calculateMetrics [] [] None in
     documentation_coverage m = of_Z 0 /\ code_complexity m = of_Z 0
     /\ maintainability_score m = of_Z 0 /\ test_coverage m = of_Z 0
     /\ overall_score m = of_Z 0
     /\ recommendations m <> [] /\ recPoor ∈ recommendations m).
Proof.
  intros (_ & _ & H & _). apply (f_equal this) in H.
  vm_compute in H. discriminate H.
Qed.

(** C2, amended: on the empty analysis with no files and no backend score,
    documentation coverage, complexity and test coverage are 0, the
    maintainability score is (0 + (10 - 0)) / 2 = 5, the overall score is
    0.3 * 10 + 0.2 * 5 = 4, and the recommendations are the documentation
    warning, the test hint and the warning verdict. *)
Theorem empty_metrics :
  let m := calculateMetrics [] [] None in
  documentation_coverage m = of_Z 0 /\ code_complexity m = of_Z 0
  /\ maintainability_score m = of_Z 5 /\ test_coverage m = of_Z 0
  /\ overall_score m = of_Z 4
  /\ recommendations m = [recDoc; recTests; recPoor]
  /\ recPoor ∈ recommendations m
  /\ languageStats m = ∅.
Proof.
  cbv zeta.
  assert (recommendations (calculateMetrics [] [] None)
          = [recDoc; recTests; recPoor]) as Hrecs by (vm_compute; reflexivity).
  rewrite Hrecs.
  split; [num_eq|]. split; [num_eq|]. split; [num_eq|].
  split; [num_eq|]. split; [num_eq|]. split; [reflexivity|].
  split; [set_solver|]. reflexivity.
Qed.

(** *** Backend score against the weighted formula *)




(** *** Recommendations *)


End QualityScoreFacts.

(** ** The file tree *)

Module TreeFacts.

Import CodeExplorer Tree.
Local Open Scope list_scope.

(** *** The entries of a [children] object *)

Lemma getChild_elem_of children k v :
  getChild children k = Some v -> (k, v) ∈ children.
Proof.
  induction children as [|[k' v'] rest IH]; cbn; [done|].
  destruct (String.eqb_spec k' k) as [->|Hne].
  - intros [= ->]. left.
  - intros H. right. by apply IH.
Qed.

Lemma elem_of_getChild children k v :
  NoDup children.*1 -> (k, v) ∈ children -> getChild children k = Some v.
Proof.
  induction children as [|[k' v'] rest IH]; cbn; intros Hnd Hin.
  - by apply elem_of_nil in Hin.
  - apply NoDup_cons in Hnd as [Hk Hnd].
    apply elem_of_cons in Hin as [[= <- <-]|Hin].
    + by rewrite String.eqb_refl.
    + destruct (String.eqb_spec k' k) as [->|Hne]; [|by apply IH].
      exfalso. apply Hk. apply list_elem_of_fmap. by exists (k, v).
Qed.

Lemma getChild_None children k :
  getChild children k = None <-> k ∉ children.*1.
Proof.
  induction children as [|[k' v'] rest IH]; cbn.
  - split; [intros _; apply not_elem_of_nil | done].
  - destruct (String.eqb_spec k' k) as [->|Hne].
    + split; [done|]. intros H. exfalso. apply H. left.
    + rewrite IH, not_elem_of_cons. split; [by intros H | by intros [_ H]].
Qed.

Lemma getChild_setChild_eq children k v :
  getChild (setChild children k v) k = Some v.
Proof.
  induction children as [|[k' v'] rest IH]; cbn.
  - by rewrite String.eqb_refl.
  - destruct (String.eqb_spec k' k) as [->|Hne]; cbn.
    + by rewrite String.eqb_refl.
    + destruct (String.eqb_spec k' k); [done | apply IH].
Qed.

Lemma getChild_setChild_ne children k k' v :
  k <> k' -> getChild (setChild children k v) k' = getChild children k'.
Proof.
  intros Hne. induction children as [|[k0 v0] rest IH]; cbn.
  - destruct (String.eqb_spec k k'); [done | reflexivity].
  - destruct (String.eqb_spec k0 k) as [->|Hne0]; cbn.
    + destruct (String.eqb_spec k k'); [done | reflexivity].
    + destruct (String.eqb_spec k0 k'); [reflexivity | apply IH].
Qed.

Lemma setChild_keys children k v :
  (setChild children k v).*1 =
    if bool_decide (k ∈ children.*1) then children.*1
    else children.*1 ++ [k].
Proof.
  induction children as [|[k' v'] rest IH]; cbn.
  - rewrite bool_decide_eq_false_2; [done | apply not_elem_of_nil].
  - destruct (String.eqb_spec k' k) as [->|Hne]; cbn.
    + rewrite bool_decide_eq_true_2; [done | left].
    + rewrite IH. destruct (bool_decide (k ∈ rest.*1)) eqn:E.
      * apply bool_decide_eq_true in E.
        rewrite bool_decide_eq_true_2; [done | by right].
      * apply bool_decide_eq_false in E.
        rewrite bool_decide_eq_false_2; [done|].
        rewrite not_elem_of_cons. split; [congruence | done].
Qed.

Lemma setChild_NoDup children k v :
  NoDup children.*1 -> NoDup (setChild children k v).*1.
Proof.
  intros Hnd. rewrite setChild_keys. case_bool_decide as Hk; [done|].
  apply NoDup_app. split_and!; [done | | apply NoDup_singleton].
  intros x Hx Hx'. apply list_elem_of_singleton in Hx' as ->. done.
Qed.

Lemma elem_of_setChild children k v k' v' :
  (k', v') ∈ setChild children k v ->
  (k' = k /\ v' = v) \/ (k', v') ∈ children.
Proof.
  induction children as [|[k0 v0] rest IH]; cbn.
  - intros H. apply list_elem_of_singleton in H as [= -> ->]. by left.
  - destruct (String.eqb_spec k0 k) as [->|Hne].
    + intros H. apply elem_of_cons in H as [[= -> ->]|H]; [by left|].
      right. by right.
    + intros H. apply elem_of_cons in H as [[= -> ->]|H].
      * right. left.
      * destruct (IH H) as [?|?]; [by left | right; by right].
Qed.

(** *** Paths of a folder *)

(** The paths collected from the entries of a [children] object. *)
Lemma elem_of_child_paths (F : Node -> list (list string)) children q :
  q ∈ foldr (fun kc acc => (cons kc.1 <$> F kc.2) ++ acc) [] children
  <-> exists k c q', q = k :: q' /\ (k, c) ∈ children /\ q' ∈ F c.
Proof.
  induction children as [|[k c] rest IH]; cbn.
  - split; [by intros H%elem_of_nil|].
    by intros (k & c & q' & _ & H%elem_of_nil & _).
  - rewrite elem_of_app, IH, list_elem_of_fmap. split.
    + intros [(q' & -> & Hq')|(k' & c' & q' & -> & Hin & Hq')].
      * exists k, c, q'. split_and!; [done | left | done].
      * exists k', c', q'. split_and!; [done | by right | done].
    + intros (k' & c' & q' & -> & Hin & Hq').
      apply elem_of_cons in Hin as [[= -> ->]|Hin].
      * left. by exists q'.
      * right. by exists k', c', q'.
Qed.

Lemma nil_not_filePaths_folder name children proto :
  [] ∉ filePaths (FolderNode name children proto).
Proof.
  cbn. rewrite elem_of_child_paths. by intros (k & c & q' & ? & _).
Qed.

Lemma nil_folderPaths_folder name children proto :
  [] ∈ folderPaths (FolderNode name children proto).
Proof. cbn. left. Qed.

Lemma cons_filePaths_folder name children proto k q :
  NoDup children.*1 ->
  k :: q ∈ filePaths (FolderNode name children proto)
  <-> exists c, getChild children k = Some c /\ q ∈ filePaths c.
Proof.
  intros Hnd. cbn. rewrite elem_of_child_paths. split.
  - intros (k' & c & q' & [= <- <-] & Hin & Hq). exists c.
    split; [by apply elem_of_getChild | done].
  - intros (c & Hget & Hq). exists k, c, q.
    split_and!; [done | by apply getChild_elem_of | done].
Qed.

Lemma cons_folderPaths_folder name children proto k q :
  NoDup children.*1 ->
  k :: q ∈ folderPaths (FolderNode name children proto)
  <-> exists c, getChild children k = Some c /\ q ∈ folderPaths c.
Proof.
  intros Hnd. cbn. rewrite elem_of_cons, elem_of_child_paths. split.
  - intros [?|(k' & c & q' & [= <- <-] & Hin & Hq)]; [done|]. exists c.
    split; [by apply elem_of_getChild | done].
  - intros (c & Hget & Hq). right. exists k, c, q.
    split_and!; [done | by apply getChild_elem_of | done].
Qed.

Lemma filePaths_file_inv name file q :
  q ∈ filePaths (FileNode name file) <-> q = [].
Proof. cbn. apply list_elem_of_singleton. Qed.

Lemma folderPaths_nil_inv c q : q ∈ folderPaths c -> [] ∈ folderPaths c.
Proof.
  destruct c as [name file|name children proto]; cbn.
  - by intros H%elem_of_nil.
  - intros _. left.
Qed.

Lemma folderPaths_isFolder c q : q ∈ folderPaths c -> isFolder c = true.
Proof.
  destruct c as [name file|name children proto]; cbn; [|done].
  by intros H%elem_of_nil.
Qed.

Lemma filePaths_nil_isFolder c : [] ∈ filePaths c -> isFolder c = false.
Proof.
  destruct c as [name file|name children proto]; [done|].
  intros H. by apply nil_not_filePaths_folder in H.
Qed.

(** *** Well-formed trees *)

Lemma wf_folder name children proto :
  wf (FolderNode name children proto)
  <-> proto = None /\ NoDup children.*1
      /\ Forall (fun kc => wf kc.2) children.
Proof.
  cbn. do 2 apply and_iff_compat_l.
  induction children as [|kc rest IH]; cbn.
  - split; [intros _; constructor | done].
  - rewrite IH, Forall_cons. done.
Qed.

Lemma wf_getChild name children proto k c :
  wf (FolderNode name children proto) ->
  getChild children k = Some c -> wf c.
Proof.
  intros (_ & _ & Hall)%wf_folder Hget%getChild_elem_of.
  rewrite Forall_forall in Hall. apply (Hall (k, c) Hget).
Qed.

Lemma wf_setChild name children proto k c :
  wf (FolderNode name children proto) -> wf c ->
  wf (FolderNode name (setChild children k c) proto).
Proof.
  intros (Hproto & Hnd & Hall)%wf_folder Hc. apply wf_folder.
  split; [done|]. split; [by apply setChild_NoDup|].
  rewrite Forall_forall in Hall |- *. intros [k' c'] Hin.
  apply elem_of_setChild in Hin as [[-> ->]|Hin]; [done|].
  apply (Hall _ Hin).
Qed.

Lemma wf_root : wf root.
Proof. cbn. split_and!; [done | constructor | done]. Qed.

(** *** One insertion *)

(** A plain segment is not found on the prototype chain of a [{}]. *)
Lemma getProperty_plain children part :
  JS.inheritedKey part = false ->
  getProperty children None part
  = match getChild children part with
    | Some child => OwnNode child
    | None => Falsy
    end.
Proof.
  intros Hpart. unfold getProperty, inheritedProperty. cbn. by rewrite Hpart.
Qed.

Lemma plainSegments_cons part rest :
  plainSegments (part :: rest) = true
  <-> JS.inheritedKey part = false /\ plainSegments rest = true.
Proof.
  unfold plainSegments. cbn [forallb].
  by rewrite andb_true_iff, negb_true_iff.
Qed.

Lemma plain_not_proto part :
  JS.inheritedKey part = false -> String.eqb part "__proto__" = false.
Proof.
  intros Hpart. apply String.eqb_neq. intros ->. by vm_compute in Hpart.
Qed.

(** The node the walk continues in: the existing child or a new folder. *)
Lemma next_node name children part (rest : list string) (next : Node) :
  wf (FolderNode name children None) ->
  [part] ∉ filePaths (FolderNode name children None) ->
  rest <> [] ->
  next = match getChild children part with
         | Some child => child
         | None => FolderNode part [] None
         end ->
  wf next /\ isFolder next = true
  /\ (forall q, q ∈ filePaths next
                <-> part :: q ∈ filePaths (FolderNode name children None))
  /\ (forall q, q ∈ folderPaths next
                <-> q = []
                    \/ part :: q ∈ folderPaths (FolderNode name children None)).
Proof.
  intros Hwf Hfile Hrest ->.
  pose proof (proj1 (wf_folder _ _ _) Hwf) as (_ & Hnd & _).
  destruct (getChild children part) as [c|] eqn:Hget.
  - assert (isFolder c = true) as Hc.
    { destruct c as [n f|n ch pr]; [|done]. exfalso. apply Hfile.
      apply cons_filePaths_folder; [done|]. eexists. split; [done|].
      by apply filePaths_file_inv. }
    split_and!; [by eapply wf_getChild | done | |].
    + intros q. rewrite cons_filePaths_folder, Hget by done. split.
      * intros Hq. by exists c.
      * by intros (c' & [= <-] & Hq).
    + intros q. rewrite cons_folderPaths_folder, Hget by done. split.
      * intros Hq. right. by exists c.
      * intros [->|(c' & [= <-] & Hq)]; [|done].
        destruct c; [done | apply nil_folderPaths_folder].
  - split_and!; [apply wf_folder; split_and!; [done | constructor..] | done | |].
    + intros q. rewrite cons_filePaths_folder, Hget by done. split.
      * by intros H%elem_of_nil.
      * by intros (c' & [=] & _).
    + intros q. rewrite cons_folderPaths_folder, Hget by done.
      change (folderPaths (FolderNode part [] None)) with [@nil string].
      rewrite list_elem_of_singleton. split; [by left|].
      intros [->|(c' & [=] & _)]. done.
Qed.

Lemma properPrefixes_inner part r0 rs :
  properPrefixes (part :: r0 :: rs)
  = [part] :: (cons part <$> properPrefixes (r0 :: rs)).
Proof. reflexivity. Qed.

(** The last step of a walk in a folder, for a segment other than
    [__proto__]. *)
Lemma insertParts_last part file name children proto :
  String.eqb part "__proto__" = false ->
  insertParts [part] file (FolderNode name children proto)
  = Returns (FolderNode name (setChild children part (FileNode part file))
               proto).
Proof. intros Hpart. cbn. by rewrite Hpart. Qed.

(** An inner step of a walk in a folder whose [children] has the prototype
    it was created with, for a plain segment. *)
Lemma insertParts_inner part r0 rs file name children :
  JS.inheritedKey part = false ->
  insertParts (part :: r0 :: rs) file (FolderNode name children None)
  = match insertParts (r0 :: rs) file
            match getChild children part with
            | Some child => child
            | None => FolderNode part [] None
            end
    with
    | Returns next' =>
        Returns (FolderNode name (setChild children part next') None)
    | ThrowsTypeError => ThrowsTypeError
    end.
Proof.
  intros Hpart.
  change (insertParts (part :: r0 :: rs) file (FolderNode name children None))
    with (let walk (next : Node) :=
            match insertParts (r0 :: rs) file next with
            | Returns next' =>
                Returns (FolderNode name (setChild children part next') None)
            | ThrowsTypeError => ThrowsTypeError
            end in
          match getProperty children None part with
          | OwnNode child => walk child
          | Truthy => ThrowsTypeError
          | Falsy => walk (FolderNode part [] None)
          end).
  cbv zeta. rewrite getProperty_plain by done.
  by destruct (getChild children part).
Qed.

(** An inner step through an existing child needs no condition on the
    segment. *)
Lemma insertParts_inner_own part r0 rs file name children proto child :
  getChild children part = Some child ->
  insertParts (part :: r0 :: rs) file (FolderNode name children proto)
  = match insertParts (r0 :: rs) file child with
    | Returns next' =>
        Returns (FolderNode name (setChild children part next') proto)
    | ThrowsTypeError => ThrowsTypeError
    end.
Proof.
  intros Hget.
  change (insertParts (part :: r0 :: rs) file (FolderNode name children proto))
    with (let walk (next : Node) :=
            match insertParts (r0 :: rs) file next with
            | Returns next' =>
                Returns (FolderNode name (setChild children part next') proto)
            | ThrowsTypeError => ThrowsTypeError
            end in
          match getProperty children proto part with
          | OwnNode child => walk child
          | Truthy => ThrowsTypeError
          | Falsy => walk (FolderNode part [] None)
          end).
  cbv zeta. unfold getProperty. by rewrite Hget.
Qed.

(** Inserting a file whose path has plain segments, runs through no file of
    the tree and ends on no folder of it returns normally, adds the path to
    the files and the proper prefixes of the path to the folders. *)
Lemma insertParts_spec file parts : forall t,
  parts <> [] -> plainSegments parts = true ->
  wf t -> isFolder t = true ->
  (forall q, q ∈ properPrefixes parts -> q ∉ filePaths t) ->
  parts ∉ folderPaths t ->
  exists t',
    insertParts parts file t = Returns t'
    /\ wf t' /\ isFolder t' = true
    /\ (forall q, q ∈ filePaths t' <-> q ∈ filePaths t \/ q = parts)
    /\ (forall q, q ∈ folderPaths t'
                  <-> q ∈ folderPaths t \/ q ∈ properPrefixes parts).
Proof.
  induction parts as [|part rest IH]; intros t Hne Hplain Hwf Hfold P1 P2;
    [done|].
  apply plainSegments_cons in Hplain as [Hpart Hplain].
  destruct t as [n f|name children proto]; [done|].
  pose proof (proj1 (wf_folder _ _ _) Hwf) as (-> & Hnd & _).
  destruct rest as [|r0 rs].
  - (* the last segment: the file node is stored *)
    rewrite insertParts_last by (by apply plain_not_proto).
    eexists. split; [reflexivity|].
    assert (wf (FolderNode name (setChild children part (FileNode part file))
                  None))
      as Hwf' by (by apply wf_setChild).
    pose proof (proj1 (wf_folder _ _ _) Hwf') as (_ & Hnd' & _).
    split_and!; [done | done | |].
    + intros [|k q].
      { split; [by intros H%nil_not_filePaths_folder|].
        intros [H%nil_not_filePaths_folder|[=]]. done. }
      rewrite !cons_filePaths_folder by done.
      destruct (decide (k = part)) as [->|Hk].
      * rewrite getChild_setChild_eq. split.
        -- intros (c & [= <-] & Hq). apply filePaths_file_inv in Hq as ->.
           by right.
        -- intros [(c & Hget & Hq)|[= ->]].
           ++ destruct c as [n f|n ch pr].
              ** apply filePaths_file_inv in Hq as ->. eexists.
                 split; [done|]. by apply filePaths_file_inv.
              ** exfalso. apply P2. apply cons_folderPaths_folder; [done|].
                 eexists. split; [done|]. apply nil_folderPaths_folder.
           ++ eexists. split; [done|]. by apply filePaths_file_inv.
      * rewrite getChild_setChild_ne by done. split; [by left|].
        intros [H|[= ? ?]]; [done | congruence].
    + intros [|k q].
      { split; intros _; [left|]; apply nil_folderPaths_folder. }
      rewrite !cons_folderPaths_folder by done. cbn [properPrefixes].
      destruct (decide (k = part)) as [->|Hk].
      * rewrite getChild_setChild_eq. split.
        -- intros (c & [= <-] & Hq). cbn in Hq. by apply elem_of_nil in Hq.
        -- intros [(c & Hget & Hq)|H%elem_of_nil]; [|done].
           exfalso. apply P2. apply cons_folderPaths_folder; [done|].
           eexists. split; [done|]. by eapply folderPaths_nil_inv.
      * rewrite getChild_setChild_ne by done. split; [by left|].
        intros [H|H%elem_of_nil]; done.
  - (* an inner segment: the walk goes down *)
    rewrite insertParts_inner by done.
    set (next := match getChild children part with
                 | Some child => child
                 | None => FolderNode part [] None
                 end).
    rewrite properPrefixes_inner in P1.
    assert ([part] ∉ filePaths (FolderNode name children None)) as Hhead.
    { apply P1. left. }
    destruct (next_node name children part (r0 :: rs) next)
      as (Hnwf & Hnfold & HnF & HnD); [done | done | done | done |].
    destruct (IH next) as (next' & Hins & Hwf' & Hfold' & HF' & HD').
    { done. }
    { done. }
    { done. }
    { done. }
    { intros q Hq Hin%HnF. apply (P1 (part :: q)); [|done].
      right. by apply list_elem_of_fmap_2. }
    { intros [[=]|Hin]%HnD. by apply P2. }
    rewrite Hins. eexists. split; [reflexivity|].
    assert (wf (FolderNode name (setChild children part next') None)) as Hwf2
      by (by apply wf_setChild).
    pose proof (proj1 (wf_folder _ _ _) Hwf2) as (_ & Hnd2 & _).
    split_and!; [done | done | |].
    + intros [|k q].
      { split; [by intros H%nil_not_filePaths_folder|].
        intros [H%nil_not_filePaths_folder|[=]]. done. }
      rewrite (cons_filePaths_folder _ (setChild _ _ _)) by done.
      destruct (decide (k = part)) as [->|Hk].
      * rewrite getChild_setChild_eq. split.
        -- intros (c & [= <-] & [Hq| ->]%HF'); [left; by apply HnF | by right].
        -- intros H. exists next'. split; [done|]. apply HF'.
           destruct H as [H|[= ->]]; [left; by apply HnF | by right].
      * rewrite getChild_setChild_ne by done.
        rewrite <- (cons_filePaths_folder name _ None) by done.
        split; [by left|]. intros [H|[= ? ?]]; [done | congruence].
    + intros [|k q].
      { split; intros _; [left|]; apply nil_folderPaths_folder. }
      rewrite (cons_folderPaths_folder _ (setChild _ _ _)) by done.
      rewrite properPrefixes_inner, elem_of_cons.
      destruct (decide (k = part)) as [->|Hk].
      * rewrite getChild_setChild_eq. split.
        -- intros (c & [= <-] & [[->|Hq]%HnD|Hq]%HD').
           ++ right. by left.
           ++ by left.
           ++ right. right. by apply list_elem_of_fmap_2.
        -- intros H. exists next'. split; [done|]. apply HD'.
           destruct H as [H|[[= ->]|(x & [= ->] & Hx)%list_elem_of_fmap]].
           ++ left. apply HnD. by right.
           ++ left. apply HnD. by left.
           ++ by right.
      * rewrite getChild_setChild_ne by done.
        rewrite <- (cons_folderPaths_folder name _ None) by done.
        split; [by left|].
        intros [H|[[= ? ?]|(x & [= ? ?] & Hx)%list_elem_of_fmap]];
          [done | congruence | congruence].
Qed.

(** *** Counting nodes through their paths *)

Lemma countFiles_filePaths t : countFiles t = length (filePaths t).
Proof.
  induction t as [name file|name children proto IH] using Node_children_ind;
    [reflexivity|].
  cbn. induction IH as [|kc rest Hkc _ IHrest]; [reflexivity|].
  cbn. by rewrite length_app, length_fmap, Hkc, IHrest.
Qed.

Lemma countFolders_folderPaths t : countFolders t = length (folderPaths t).
Proof.
  induction t as [name file|name children proto IH] using Node_children_ind;
    [reflexivity|].
  cbn. f_equal. induction IH as [|kc rest Hkc _ IHrest]; [reflexivity|].
  cbn. by rewrite length_app, length_fmap, Hkc, IHrest.
Qed.

(** The paths collected under distinct keys are distinct. *)
Lemma NoDup_child_paths (F : Node -> list (list string)) children :
  NoDup children.*1 ->
  Forall (fun kc => NoDup (F kc.2)) children ->
  NoDup (foldr (fun kc acc => (cons kc.1 <$> F kc.2) ++ acc) [] children).
Proof.
  induction children as [|[k c] rest IH]; cbn; intros Hnd Hall.
  - constructor.
  - apply NoDup_cons in Hnd as [Hk Hnd].
    apply Forall_cons in Hall as [Hc Hall].
    apply NoDup_app. split_and!.
    + apply NoDup_fmap_2; [|done]. by intros ?? [=].
    + intros q (q' & -> & _)%list_elem_of_fmap
        (k' & c' & q'' & [= <- <-] & Hin & _)%elem_of_child_paths.
      apply Hk. apply list_elem_of_fmap. by exists (k, c').
    + by apply IH.
Qed.

Lemma NoDup_filePaths t : wf t -> NoDup (filePaths t).
Proof.
  induction t as [name file|name children proto IH] using Node_children_ind.
  - intros _. apply NoDup_singleton.
  - intros (_ & Hnd & Hall)%wf_folder. cbn.
    apply NoDup_child_paths; [done|].
    rewrite Forall_forall in IH, Hall |- *. intros kc Hin.
    apply (IH kc Hin), (Hall kc Hin).
Qed.

Lemma NoDup_folderPaths t : wf t -> NoDup (folderPaths t).
Proof.
  induction t as [name file|name children proto IH] using Node_children_ind.
  - intros _. constructor.
  - intros (_ & Hnd & Hall)%wf_folder. cbn. apply NoDup_cons. split.
    + rewrite elem_of_child_paths. by intros (k & c & q' & ? & _).
    + apply NoDup_child_paths; [done|].
      rewrite Forall_forall in IH, Hall |- *. intros kc Hin.
      apply (IH kc Hin), (Hall kc Hin).
Qed.

(** *** Paths and their prefixes *)

Lemma split_nonempty s : split s <> [].
Proof.
  destruct s as [|c r]; cbn; [done|].
  destruct (Ascii.eqb c "/"%char); [done|]. by destruct (split r).
Qed.

Lemma partsOf_nonempty file : partsOf file <> [].
Proof. apply split_nonempty. Qed.

Lemma isProperPrefix_properPrefixes q p :
  q ∈ properPrefixes p <-> q <> [] /\ isProperPrefix q p = true.
Proof.
  revert q. induction p as [|x rest IH]; intros q.
  - cbn. split; [by intros H%elem_of_nil|]. intros [_ H]. by destruct q.
  - destruct rest as [|r0 rs].
    + cbn. split; [by intros H%elem_of_nil|]. intros [Hq H].
      destruct q as [|y [|z q]]; [done | |];
        cbn in H; by rewrite andb_false_r in H.
    + rewrite properPrefixes_inner, elem_of_cons, list_elem_of_fmap. split.
      * intros [->|(q' & -> & [Hq' Hpre]%IH)].
        -- split; [done|]. cbn. by rewrite String.eqb_refl.
        -- split; [done|]. cbn [isProperPrefix].
           by rewrite String.eqb_refl, Hpre.
      * intros [Hq H]. destruct q as [|y q]; [done|].
        cbn [isProperPrefix] in H. apply andb_true_iff in H as [Hy H].
        apply String.eqb_eq in Hy as ->.
        destruct q as [|z q]; [by left|]. right. exists (z :: q).
        split; [done|]. apply IH. by split.
Qed.

Lemma prefixFree_spec paths :
  prefixFree paths = true
  <-> forall p q, p ∈ paths -> q ∈ paths -> isProperPrefix p q = false.
Proof.
  unfold prefixFree. rewrite forallb_forall. split.
  - intros H p q Hp%list_elem_of_In Hq%list_elem_of_In.
    specialize (H p Hp). rewrite forallb_forall in H.
    apply negb_true_iff, (H q Hq).
  - intros H p Hp%list_elem_of_In. apply forallb_forall.
    intros q Hq%list_elem_of_In. apply negb_true_iff. by apply H.
Qed.

Lemma join_split s : join (split s) = s.
Proof.
  induction s as [|c r IH]; [reflexivity|]. cbn [split].
  destruct (Ascii.eqb_spec c "/"%char) as [->|Hc].
  - pose proof (split_nonempty r) as Hne. cbn [join].
    destruct (split r) as [|h t] eqn:E; [done|]. by rewrite IH.
  - destruct (split r) as [|h t] eqn:E; [by apply split_nonempty in E|].
    cbn [join] in *. destruct t as [|h' t']; by rewrite <- IH.
Qed.

Lemma split_inj a b : split a = split b -> a = b.
Proof. intros H. by rewrite <- (join_split a), H, join_split. Qed.

(** *** Building the tree *)

Lemma represents_root : represents [] root.
Proof.
  split_and!; [apply wf_root | done | |]; intros q; cbn.
  - done.
  - rewrite list_elem_of_singleton, elem_of_nil. tauto.
Qed.

(** On a list of files with plain segments, none of which sits on the way
    to another, the loop of [buildFileTree] runs to its end and the tree
    holds the files. *)
Lemma buildFileTree_from files : forall done t,
  represents done t ->
  plainPaths files = true ->
  prefixFree (partsOf <$> (done ++ files)) = true ->
  exists t', foldl addFile (Returns t) files = Returns t'
             /\ represents (done ++ files) t'.
Proof.
  induction files as [|f files IH]; intros done t Hrep Hplain Hpf.
  - exists t. by rewrite app_nil_r.
  - destruct Hrep as (Hwf & Hfold & HF & HD).
    apply andb_true_iff in Hplain as [Hf_plain Hplain].
    pose proof (proj1 (prefixFree_spec _) Hpf) as Hfree.
    assert (partsOf f ∈ partsOf <$> (done ++ f :: files)) as Hf.
    { apply list_elem_of_fmap_2, elem_of_app. right. left. }
    destruct (insertParts_spec f (partsOf f) t)
      as (t1 & Hins & Hwf1 & Hfold1 & HF1 & HD1).
    { apply partsOf_nonempty. }
    { done. }
    { done. }
    { done. }
    { intros q [_ Hq]%isProperPrefix_properPrefixes Hin%HF.
      rewrite Hfree in Hq; [done | | done].
      rewrite fmap_app, elem_of_app. by left. }
    { intros [Hnil|(g & Hg & Hin)%list_elem_of_bind]%HD.
      - by apply partsOf_nonempty in Hnil.
      - apply isProperPrefix_properPrefixes in Hg as [_ Hg].
        rewrite Hfree in Hg; [done | done |].
        apply list_elem_of_fmap_2, elem_of_app. by left. }
    destruct (IH (done ++ [f]) t1) as (t' & Hrun & Hrep').
    + split_and!; [done | done | |].
      * intros q. rewrite HF1, HF, fmap_app, elem_of_app.
        cbn. by rewrite list_elem_of_singleton.
      * intros q. rewrite HD1, HD, !list_elem_of_bind.
        split.
        -- intros [[Hnil|(g & Hg & Hin)]|Hq]; [by left | |].
           ++ right. exists g. split; [done|]. apply elem_of_app. by left.
           ++ right. exists f. split; [done|]. apply elem_of_app.
              right. left.
        -- intros [Hnil|(g & Hg & [Hin|Hin%list_elem_of_singleton]%elem_of_app)].
           ++ left. by left.
           ++ left. right. by exists g.
           ++ subst g. by right.
    + done.
    + by rewrite <- app_assoc.
    + exists t'. split; [|by rewrite <- app_assoc in Hrep'].
      cbn [foldl]. unfold addFile at 2. fold (partsOf f). by rewrite Hins.
Qed.

(** A walk that has to pass through a file node raises the [TypeError]. *)
Lemma insertParts_through_file file parts : forall t rest,
  wf t -> parts ∈ filePaths t -> rest <> [] ->
  insertParts (parts ++ rest) file t = ThrowsTypeError.
Proof.
  induction parts as [|part parts IH]; intros t rest Hwf Hin Hrest.
  - destruct t as [n f|name children proto].
    + destruct rest; [done | reflexivity].
    + by apply nil_not_filePaths_folder in Hin.
  - destruct t as [n f|name children proto].
    + by apply filePaths_file_inv in Hin.
    + pose proof (proj1 (wf_folder _ _ _) Hwf) as (_ & Hnd & _).
      apply cons_filePaths_folder in Hin as (c & Hget & Hin); [|done].
      destruct (parts ++ rest) as [|r0 rs] eqn:E.
      { apply app_eq_nil in E as [_ ->]. done. }
      cbn [app]. rewrite E, (insertParts_inner_own _ _ _ _ _ _ _ c), <- E by done.
      rewrite (IH c rest); [done | by eapply wf_getChild | done | done].
Qed.

(** A walk that has to pass through an inherited property raises the
    [TypeError]: the inherited value counts as true, so no folder is made,
    and it has no [children]. *)
Lemma insertParts_inherited file part r0 rs name children :
  JS.inheritedKey part = true ->
  getChild children part = None ->
  insertParts (part :: r0 :: rs) file (FolderNode name children None)
  = ThrowsTypeError.
Proof.
  intros Hpart Hget. cbn [insertParts].
  unfold getProperty, inheritedProperty. rewrite Hget. cbn. by rewrite Hpart.
Qed.

(** C4: [buildFileTree] does not return on every input.  When the path of
    a file is a proper prefix of the path of the file that follows it, the
    walk for the second file steps from the file node of the first one,
    whose [children] is [undefined], and the call raises a [TypeError]. *)
Theorem buildFileTree_throws_on_prefix (f g : FileRecord)
    (rest : list string) :
  plainSegments (partsOf f) = true ->
  rest <> [] ->
  partsOf g = partsOf f ++ rest ->
  buildFileTree [f; g] = ThrowsTypeError.
Proof.
  intros Hplain Hrest Hg.
  destruct (insertParts_spec f (partsOf f) root)
    as (t1 & Hins & Hwf1 & _ & HF1 & _).
  - apply partsOf_nonempty.
  - done.
  - apply wf_root.
  - done.
  - intros q _ H. by apply elem_of_nil in H.
  - intros H%list_elem_of_singleton. by apply partsOf_nonempty in H.
  - unfold buildFileTree. cbn [foldl]. unfold addFile at 2.
    fold (partsOf f). rewrite Hins. unfold addFile. fold (partsOf g).
    rewrite Hg. apply insertParts_through_file; [done | | done].
    apply HF1. by right.
Qed.

Lemma buildFileTree_throws_on_prefix_witness :
  plainSegments (partsOf (Samples.file "a")) = true
  /\ ["b"] <> []
  /\ partsOf (Samples.file "a/b") = partsOf (Samples.file "a") ++ ["b"]
  /\ buildFileTree [Samples.file "a"; Samples.file "a/b"] = ThrowsTypeError.
Proof.
  split; [reflexivity|]. split; [discriminate|]. split; [reflexivity|].
  apply (buildFileTree_throws_on_prefix _ _ ["b"]);
    [reflexivity | discriminate | reflexivity].
Defined.

(** A single file under a folder named like an inherited property is
    enough for the [TypeError]. *)
Lemma buildFileTree_throws_on_inherited (file : FileRecord) part r0 rs :
  JS.inheritedKey part = true ->
  partsOf file = part :: r0 :: rs ->
  buildFileTree [file] = ThrowsTypeError.
Proof.
  intros Hpart Hparts. unfold buildFileTree. cbn [foldl]. unfold addFile.
  fold (partsOf file). rewrite Hparts. by apply insertParts_inherited.
Qed.

Lemma buildFileTree_throws_on_constructor :
  buildFileTree [Samples.file "src/constructor/index.js"] = ThrowsTypeError.
Proof. reflexivity. Qed.

(** On the empty list the tree is the root alone. *)
Lemma buildFileTree_nil : buildFileTree [] = Returns root.
Proof. reflexivity. Qed.

(** *** Leaves and folders *)

(** C6, as stated, fails: two records with the same path leave one file
    node, not two; and a file stored where an earlier file needed a folder
    replaces that folder with all it holds. *)
Lemma duplicate_paths_one_leaf :
  let twice := [Samples.file "src/a.js"; Samples.file "src/a.js"] in
  let over := [Samples.file "a/b"; Samples.file "a"] in
  (exists t, buildFileTree twice = Returns t
             /\ countFiles t = 1 /\ countFiles t <> length twice)
  /\ (exists t, buildFileTree over = Returns t
                /\ countFiles t = 1 /\ countFiles t <> length over
                /\ countNonRootFolders t = 0
                /\ countNonRootFolders t <> distinctProperPrefixes over).
Proof.
  cbv zeta. split.
  - eexists. split; [reflexivity|]. split; [reflexivity|]. cbn. lia.
  - eexists. split; [reflexivity|]. split; [reflexivity|].
    split; [cbn; lia|]. split; [reflexivity|]. vm_compute. lia.
Qed.

Lemma length_NoDup_set {A} (l k : list A) :
  NoDup l -> NoDup k -> (forall x, x ∈ l <-> x ∈ k) -> length l = length k.
Proof. intros Hl Hk H. by apply Permutation_length, NoDup_Permutation. Qed.

(** C6, amended: when the paths of the list have plain segments and no
    path is a proper prefix of another path, [buildFileTree] returns a tree
    whose number of file nodes is the number of distinct paths of the list,
    which is the size N of the list when its paths are pairwise distinct,
    and whose number of folders below the root is the number of distinct
    non-empty proper prefixes of the paths. *)
Theorem buildFileTree_counts (files : list FileRecord) :
  plainPaths files = true ->
  prefixFree (partsOf <$> files) = true ->
  exists t,
    buildFileTree files = Returns t
    /\ countFiles t = distinctPaths files
    /\ (NoDup (path <$> files) -> countFiles t = length files)
    /\ countNonRootFolders t = distinctProperPrefixes files.
Proof.
  intros Hplain Hpf.
  destruct (buildFileTree_from files [] root represents_root Hplain Hpf)
    as (t & Hrun & Hwf & _ & HF & HD).
  exists t. split; [done|].
  assert (countFiles t = distinctPaths files) as Hfiles.
  { rewrite countFiles_filePaths. unfold distinctPaths.
    apply length_NoDup_set;
      [by apply NoDup_filePaths | apply NoDup_remove_dups |].
    intros q. by rewrite elem_of_remove_dups. }
  split_and!; [done | |].
  - intros Hnd. rewrite Hfiles. unfold distinctPaths.
    rewrite <- (length_fmap partsOf files).
    apply length_NoDup_set; [apply NoDup_remove_dups | |].
    + change (partsOf <$> files) with ((split ∘ path) <$> files).
      rewrite (list_fmap_compose path split files).
      apply NoDup_fmap_2; [|done]. intros a b. apply split_inj.
    + intros q. apply elem_of_remove_dups.
  - unfold countNonRootFolders, distinctProperPrefixes.
    rewrite countFolders_folderPaths.
    rewrite (length_NoDup_set (folderPaths t)
      ([] :: remove_dups (files ≫= (fun f => properPrefixes (partsOf f))))).
    + reflexivity.
    + by apply NoDup_folderPaths.
    + apply NoDup_cons. split; [|apply NoDup_remove_dups].
      rewrite elem_of_remove_dups.
      intros (g & [Hnil _]%isProperPrefix_properPrefixes & _)%list_elem_of_bind.
      done.
    + intros q. by rewrite HD, elem_of_cons, elem_of_remove_dups.
Qed.

Lemma buildFileTree_counts_witness :
  let files := [Samples.file "src/index.js";
                Samples.file "src/utils/math.js";
                Samples.file "README.md"] in
  plainPaths files = true
  /\ prefixFree (partsOf <$> files) = true
  /\ exists t,
       buildFileTree files = Returns t
       /\ countFiles t = distinctPaths files
       /\ (NoDup (path <$> files) -> countFiles t = length files)
       /\ countNonRootFolders t = distinctProperPrefixes files.
Proof.
  cbv zeta. split; [reflexivity|]. split; [reflexivity|].
  apply buildFileTree_counts; reflexivity.
Defined.

End TreeFacts.

(** ** Submission and its errors *)

Module SubmissionFacts.

Import JS Api RepoInput App.

Lemma or_str_nonempty (s : option string) (d : string) :
  d <> "" -> or_str s d <> "".
Proof. intros Hd. destruct s as [[|c r]|]; cbn; done. Qed.

Lemma or_str_Some_nonempty (v d : string) : v <> "" -> or_str (Some v) d = v.
Proof. intros Hv. by destruct v. Qed.

(** [formatError] on an error made by [new Error(msg)]: there is neither a
    response nor a code to look at. *)
Lemma formatError_newError (msg : string) :
  msg <> "" -> formatError (newError msg) = msg.
Proof.
  intros Hmsg. unfold formatError, statusIs, newError. cbn.
  by apply or_str_Some_nonempty.
Qed.

(** C3: the status of an error response does not reach [formatError].
    [apiService.analyzeRepository] rethrows the axios error as a fresh
    [Error] that carries the detail of the response, or a fixed text, and
    no [response]; so after a failed submission the application is in its
    failed state (not loading, an error message set), but the message is
    that detail or "Failed to analyze repository" for every status, 422,
    404 and 500 included, and not the text [formatError] maps the status
    to. *)
Theorem analyze_error_ignores_status (st : nat) (d : option string)
    (app : App.State) :
  let app' := handleAnalyzeRepo_settle (Rejected (Samples.httpError st d)) app in
  isLoading app' = false
  /\ error app' = Some (or_str d "Failed to analyze repository")
  /\ formatError (Samples.httpError 422 d) = msgInvalidInput
  /\ formatError (Samples.httpError 404 d) = msgNotFound
  /\ formatError (Samples.httpError 500 d) = msgServerError.
Proof.
  cbv zeta. split; [reflexivity|]. split.
  - unfold handleAnalyzeRepo_settle, analyzeRepository, wrap. cbn [error].
    f_equal. apply formatError_newError. by apply or_str_nonempty.
  - split_and!; reflexivity.
Qed.

(** The failing input of C3: a 422 answer without detail is shown as
    "Failed to analyze repository". *)
Lemma analyze_error_422 :
  error (handleAnalyzeRepo_settle
           (Rejected (Samples.httpError 422 None)) App.init)
  = Some "Failed to analyze repository"
  /\ formatError (Samples.httpError 422 None) = msgInvalidInput
  /\ msgInvalidInput <> "Failed to analyze repository".
Proof. split; [reflexivity|]. split; [reflexivity | discriminate]. Qed.

(** *** The form *)

Lemma exampleRepos_valid :
  forall url, url ∈ exampleRepos -> validateGitHubUrl url = true.
Proof.
  intros url Hin. unfold exampleRepos in Hin.
  repeat (apply elem_of_cons in Hin as [->|Hin];
          [vm_compute; reflexivity|]).
  by apply elem_of_nil in Hin.
Qed.

Lemma run_snoc (evs : list RepoInput.Event) (ev : RepoInput.Event) :
  RepoInput.run (evs ++ [ev]) = handle (RepoInput.run evs) ev.
Proof. unfold RepoInput.run. by rewrite foldl_app. Qed.

(** The validity flag of the form is never ahead of the validator. *)
Lemma isValid_sound (evs : list RepoInput.Event) :
  isValid (RepoInput.run evs) = true ->
  validateGitHubUrl (repoUrl (RepoInput.run evs)) = true.
Proof.
  induction evs as [|ev evs IH] using rev_ind; [done|].
  rewrite run_snoc. destruct ev as [url|b|i]; cbn [handle].
  - done.
  - done.
  - destruct (exampleRepos !! i) as [url|] eqn:E; [|done].
    intros _. cbn. apply exampleRepos_valid.
    by eapply list_elem_of_lookup_2.
Qed.

(** C7: a submission is rejected on the spot unless the reference matches
    one of the three patterns.  Whatever was done to the form before, if
    its reference does not validate then submitting changes neither the
    application state nor the form, and sends no request; a reference that
    validates is sent, trimmed, when no analysis is running.  The two
    GitHub references of the claim validate and the one on another host
    does not. *)
Theorem submit_needs_valid_reference :
  (forall (evs : list RepoInput.Event) (app : App.State),
      validateGitHubUrl (repoUrl (RepoInput.run evs)) = false ->
      submit app (RepoInput.run evs) = (app, RepoInput.run evs, None))
  /\ (forall (url : string) (app : App.State),
         validateGitHubUrl url = true -> isLoading app = false ->
         exists app' request,
           submit app (RepoInput.run [TypeUrl url])
           = (app', RepoInput.run [TypeUrl url], Some request)
           /\ repo_url request = trim url
           /\ isLoading app' = true)
  /\ (forall url, validateGitHubUrl url
                  = Regex.test patternWeb (trim url)
                    || Regex.test patternSsh (trim url)
                    || Regex.test patternWebGit (trim url))
  /\ validateGitHubUrl "https://github.com/acme/widgets" = true
  /\ validateGitHubUrl "git@github.com:acme/widgets.git" = true
  /\ validateGitHubUrl "https://example.com/acme/widgets" = false.
Proof.
  split_and!.
  - intros evs app Hbad. unfold submit, handleSubmit.
    destruct (isValid (RepoInput.run evs)) eqn:Hv; [|reflexivity].
    apply isValid_sound in Hv. congruence.
  - intros url app Hok Hidle. unfold submit, handleSubmit.
    cbn [RepoInput.run foldl handle handleUrlChange isValid].
    rewrite Hok, Hidle. cbn [andb negb handleAnalyzeRepo_begin].
    eexists _, _. split; [reflexivity|]. split; reflexivity.
  - intros url. unfold validateGitHubUrl, githubPatterns. cbn [existsb].
    by rewrite orb_false_r, orb_assoc.
  - vm_compute. reflexivity.
  - vm_compute. reflexivity.
  - vm_compute. reflexivity.
Qed.

Lemma submit_needs_valid_reference_witness :
  let evs := [ClickExample 1; TypeBranch "dev";
              TypeUrl "https://example.com/acme/widgets"] in
  validateGitHubUrl (repoUrl (RepoInput.run evs)) = false
  /\ submit App.init (RepoInput.run evs)
     = (App.init, RepoInput.run evs, None).
Proof.
  cbv zeta. split; [vm_compute; reflexivity|].
  apply (proj1 submit_needs_valid_reference). vm_compute. reflexivity.
Defined.

End SubmissionFacts.

(** ** Selection and explanation *)

Module ExplainFacts.

Import Api CodeExplorer.

(** C1, as stated, fails: file A is selected, an explanation of a piece of
    its code is requested, file B is selected, and then the response for A
    arrives.  Before the arrival B is selected and nothing is explained;
    the arrival is not discarded, it sets the explanation. *)
Lemma stale_response_applied :
  let A := Samples.file "src/a.js" in
  let B := Samples.file "src/b.js" in
  let before := run [ClickFile A; ChangeSelection (Some "foo()");
                     ClickExplain; ClickFile B] in
  let after := step before (Settle 0 (Fulfilled (Samples.explained "about a"))) in
  (req_file_path <$> inflight before) = [path A]
  /\ selectedFile (ui before) = Some B
  /\ explanation (ui before) = None
  /\ selectedFile (ui after) = Some B
  /\ explanation (ui after) <> explanation (ui before).
Proof. cbv zeta. split_and!; try reflexivity. discriminate. Qed.

(** C1, amended: selecting B while the request for A is in flight resets
    the explanation and the selected code at once, but the response for A
    is applied when it arrives, whatever is selected then: the explanation
    becomes the payload of that response, or the fixed fallback payload if
    the request failed, and the explaining flag is cleared, while the
    selected file stays B. *)
Theorem late_response_is_applied (A B : FileRecord) (code : string)
    (res : Settled Explanation) :
  code <> "" ->
  let before := run [ClickFile A; ChangeSelection (Some code);
                     ClickExplain; ClickFile B] in
  let after := step before (Settle 0 res) in
  (req_file_path <$> inflight before) = [path A]
  /\ ui before = {| selectedFile := Some B; explanation := None;
                    isExplaining := true; selectedCode := "" |}
  /\ inflight after = []
  /\ ui after = {| selectedFile := Some B;
                   explanation :=
                     Some match res with
                          | Fulfilled response => response
                          | Rejected _ => fallbackExplanation
                          end;
                   isExplaining := false; selectedCode := "" |}.
Proof.
  intros Hcode. destruct code as [|c r]; [done|].
  cbv zeta. split_and!; try reflexivity.
  destruct res; reflexivity.
Qed.

Lemma late_response_is_applied_witness :
  "foo()" <> ""
  /\ explanation
       (ui (run [ClickFile (Samples.file "src/a.js");
                 ChangeSelection (Some "foo()"); ClickExplain;
                 ClickFile (Samples.file "src/b.js");
                 Settle 0 (Rejected (Samples.httpError 500 None))]))
     = Some fallbackExplanation.
Proof.
  split; [discriminate|].
  pose proof (late_response_is_applied (Samples.file "src/a.js")
                (Samples.file "src/b.js") "foo()"
                (Rejected (Samples.httpError 500 None))) as H.
  cbv zeta in H. destruct H as (_ & _ & _ & H); [discriminate|].
  unfold run in *. cbn [foldl] in *. by rewrite H.
Defined.

End ExplainFacts.

(** ** Numbers as fractions *)

Module RationalFacts.

Import JS.
Local Open Scope Qc_scope.

Lemma this_of_Z z : (this (of_Z z) == inject_Z z)%Q.
Proof. unfold of_Z. cbn. apply Qred_correct. Qed.

Lemma this_Q2Qc (q : Q) : (this (Q2Qc q) == q)%Q.
Proof. cbn. apply Qred_correct. Qed.

Lemma this_plus (x y : num) : (this (x + y) == this x + this y)%Q.
Proof. unfold Qcplus. cbn. apply Qred_correct. Qed.

Lemma this_minus (x y : num) : (this (x - y) == this x - this y)%Q.
Proof.
  unfold Qcminus, Qcplus, Qcopp. cbn. rewrite !Qred_correct. reflexivity.
Qed.

Lemma this_mult (x y : num) : (this (x * y) == this x * this y)%Q.
Proof. unfold Qcmult. cbn. apply Qred_correct. Qed.

Lemma this_div (x y : num) : (this (x / y) == this x * / this y)%Q.
Proof.
  unfold Qcdiv, Qcmult, Qcinv. cbn. rewrite !Qred_correct. reflexivity.
Qed.

(** Literals in the form the linear solver reads. *)
Ltac q_consts :=
  repeat match goal with
  | |- context [inject_Z (Zpos ?p)] =>
      change (inject_Z (Zpos p)) with (Zpos p # 1)%Q
  | |- context [inject_Z Z0] => change (inject_Z Z0) with (0 # 1)%Q
  | H : context [inject_Z (Zpos ?p)] |- _ =>
      change (inject_Z (Zpos p)) with (Zpos p # 1)%Q in H
  | H : context [inject_Z Z0] |- _ =>
      change (inject_Z Z0) with (0 # 1)%Q in H
  end;
  repeat match goal with
  | |- context [Qinv (Zpos ?p # ?q)] =>
      change (Qinv (Zpos p # q)) with (Zpos q # p)%Q
  | H : context [Qinv (Zpos ?p # ?q)] |- _ =>
      change (Qinv (Zpos p # q)) with (Zpos q # p)%Q in H
  end.

(** An order between numbers, read on their fractions. *)
Ltac to_Q :=
  unfold Qcle, Qclt, of_nat in *;
  repeat first
    [ rewrite this_plus | rewrite this_minus | rewrite this_mult
    | rewrite this_div | rewrite this_of_Z | rewrite this_Q2Qc ];
  unfold Qdiv in *; q_consts.

Ltac to_Q_in H :=
  unfold Qcle, Qclt, of_nat in H;
  repeat first
    [ rewrite this_plus in H | rewrite this_minus in H
    | rewrite this_mult in H | rewrite this_div in H
    | rewrite this_of_Z in H | rewrite this_Q2Qc in H ];
  unfold Qdiv in H; q_consts.

Lemma of_Z_le a b : (a <= b)%Z -> of_Z a <= of_Z b.
Proof.
  intros H. unfold Qcle. rewrite !this_of_Z, <- Zle_Qle. exact H.
Qed.

Lemma of_Z_lt a b : (a < b)%Z -> of_Z a < of_Z b.
Proof.
  intros H. unfold Qclt. rewrite !this_of_Z, <- Zlt_Qlt. exact H.
Qed.

Lemma of_nat_nonneg n : 0 <= of_nat n.
Proof. apply (of_Z_le 0). lia. Qed.

Lemma of_nat_pos n : (0 < n)%nat -> 0 < of_nat n.
Proof. intros H. apply (of_Z_lt 0). lia. Qed.

Lemma of_nat_S n : of_nat (S n) = of_nat n + of_Z 1.
Proof.
  apply Qc_is_canon. unfold of_nat. rewrite this_plus, !this_of_Z.
  rewrite Nat2Z.inj_succ. unfold Z.succ. rewrite inject_Z_plus. reflexivity.
Qed.


Lemma round_mono x y : x <= y -> round x <= round y.
Proof.
  intros H. unfold round. apply of_Z_le, Qfloor_resp_le.
  unfold Qcle in H. lra.
Qed.

Lemma round_of_Z z : round (of_Z z) = of_Z z.
Proof.
  unfold round. f_equal.
  match goal with |- Qfloor ?q = _ =>
    assert (q == inject_Z z + (1 # 2))%Q as ->
      by (rewrite !this_of_Z; reflexivity)
  end.
  pose proof (Qfloor_le (inject_Z z + (1 # 2))) as Hle.
  pose proof (Qlt_floor (inject_Z z + (1 # 2))) as Hlt.
  remember (Qfloor (inject_Z z + (1 # 2))) as k eqn:Hk. clear Hk.
  rewrite inject_Z_plus in Hlt. q_consts.
  assert (inject_Z k <= inject_Z z)%Q as H1.
  { rewrite <- Zle_Qle. apply Z.lt_succ_r. rewrite Zlt_Qlt. unfold Z.succ.
    rewrite inject_Z_plus. q_consts. lra. }
  assert (inject_Z z <= inject_Z k)%Q as H2.
  { rewrite <- Zle_Qle. apply Z.lt_succ_r. rewrite Zlt_Qlt. unfold Z.succ.
    rewrite inject_Z_plus. q_consts. lra. }
  rewrite <- Zle_Qle in H1, H2. lia.
Qed.

(** The sum of a list, one element at a time. *)
Lemma foldl_plus (xs : list num) : forall b,
  foldl Qcplus b xs = b + foldl Qcplus 0 xs.
Proof.
  induction xs as [|x xs IH]; intros b; cbn.
  - ring.
  - rewrite (IH (b + x)), (IH (0 + x)). ring.
Qed.

Lemma sum_cons x xs : sum (x :: xs) = x + sum xs.
Proof. unfold sum. cbn. rewrite foldl_plus. ring. Qed.

Lemma sum_bounds (xs : list num) :
  Forall (fun v => 0 <= v /\ v <= of_Z 10) xs ->
  0 <= sum xs /\ sum xs <= of_Z 10 * of_nat (length xs).
Proof.
  induction 1 as [|x xs [Hlo Hhi] _ [IHlo IHhi]].
  - split; [apply Qcle_refl|]. unfold sum. cbn [foldl length].
    change (of_nat 0) with (of_Z 0). to_Q. lra.
  - rewrite sum_cons. cbn [length]. rewrite of_nat_S.
    revert IHlo IHhi Hlo Hhi. generalize (sum xs) (of_nat (length xs)).
    intros s n. to_Q. intros. split; lra.
Qed.

End RationalFacts.

(** ** Ranges, rounding and groups of the quality metrics *)

Module MetricsFacts.

Import JS JSFacts QualityScore ScoreColors MetricsSpec RationalFacts.
Local Open Scope Qc_scope.

Lemma or_num_inRange (x : option num) :
  scoreInRange x -> 0 <= or_num x 0 /\ or_num x 0 <= of_Z 10.
Proof.
  destruct x as [v|]; cbn [scoreInRange].
  - by rewrite or_num_0.
  - intros _. rewrite or_num_None. split; [apply Qcle_refl|].
    apply (of_Z_le 0). lia.
Qed.

Lemma mean_bounds (xs : list num) :
  Forall (fun v => 0 <= v /\ v <= of_Z 10) xs ->
  0 <= mean xs /\ mean xs <= of_Z 10.
Proof.
  intros Hxs. unfold mean. destruct (0 <? length xs)%nat eqn:Hlen.
  - apply Nat.ltb_lt, of_nat_pos in Hlen.
    destruct (sum_bounds xs Hxs) as [Hlo Hhi].
    revert Hlen Hlo Hhi. generalize (sum xs) (of_nat (length xs)).
    intros s n. to_Q. intros Hn Hlo Hhi. split.
    + apply Qle_shift_div_l; [done|]. lra.
    + apply Qle_shift_div_r; [done|]. lra.
  - split; [apply Qcle_refl | apply (of_Z_le 0); lia].
Qed.

Lemma docCoverage_bounds (analysis : list AnalysisEntry) :
  Forall scoresInRange analysis ->
  0 <= docCoverage analysis /\ docCoverage analysis <= of_Z 10.
Proof.
  intros H. apply mean_bounds. apply Forall_fmap.
  eapply Forall_impl; [exact H|]. intros a [_ Ha]. by apply or_num_inRange.
Qed.

Lemma avgComplexityOf_bounds (analysis : list AnalysisEntry) :
  Forall scoresInRange analysis ->
  0 <= avgComplexityOf analysis /\ avgComplexityOf analysis <= of_Z 10.
Proof.
  intros H. apply mean_bounds. apply Forall_fmap.
  eapply Forall_impl; [exact H|]. intros a [Ha _]. by apply or_num_inRange.
Qed.

Lemma testCoverage_bounds (analysis : list AnalysisEntry)
    (files : list FileRecord) :
  0 <= testCoverage analysis files /\ testCoverage analysis files <= of_Z 100.
Proof.
  unfold testCoverage. destruct (0 <? length files)%nat eqn:Hlen.
  - apply Nat.ltb_lt, of_nat_pos in Hlen.
    pose proof (of_nat_nonneg (testFiles analysis)) as Htest.
    assert (0 <= of_nat (testFiles analysis) / of_nat (length files)
                 * of_Z 100) as Hx.
    { revert Hlen Htest.
      generalize (of_nat (testFiles analysis)) (of_nat (length files)).
      intros t n. to_Q. intros Hn Ht.
      assert (0 <= this t * / this n)%Q.
      { apply Qle_shift_div_l; [done|]. lra. }
      lra. }
    unfold min. destruct (ltb _ _) eqn:E.
    + split; [apply (of_Z_le 0); lia | apply Qcle_refl].
    + split; [done | by apply ltb_ge].
  - split; [apply Qcle_refl | apply (of_Z_le 0); lia].
Qed.

(** *** Rounding to one decimal *)

Lemma of_Z_10_nonzero : of_Z 10 <> 0.
Proof. intros H. apply (f_equal this) in H. vm_compute in H. discriminate H. Qed.


Lemma round1_mono x y : x <= y -> round1 x <= round1 y.
Proof.
  intros H. unfold round1.
  assert (round (x * of_Z 10) <= round (y * of_Z 10)) as Hr.
  { apply round_mono. revert H. to_Q. intros H. lra. }
  revert Hr. generalize (round (x * of_Z 10)) (round (y * of_Z 10)).
  intros a b. to_Q. intros Hr. lra.
Qed.

Lemma round1_tenths k : round1 (of_Z k / of_Z 10) = of_Z k / of_Z 10.
Proof.
  unfold round1.
  replace (of_Z k / of_Z 10 * of_Z 10) with (of_Z k).
  - by rewrite round_of_Z.
  - field. apply of_Z_10_nonzero.
Qed.

Lemma round1_of_Z z : round1 (of_Z z) = of_Z z.
Proof.
  assert (of_Z z = of_Z (z * 10) / of_Z 10) as Hz.
  { apply Qc_is_canon. rewrite this_div, !this_of_Z, inject_Z_mult.
    q_consts. apply Qle_antisym; lra. }
  rewrite Hz at 1. rewrite round1_tenths. by rewrite <- Hz.
Qed.

Lemma round1_range x lo hi :
  of_Z lo <= x -> x <= of_Z hi -> of_Z lo <= round1 x /\ round1 x <= of_Z hi.
Proof.
  intros Hlo Hhi. split.
  - rewrite <- (round1_of_Z lo). by apply round1_mono.
  - rewrite <- (round1_of_Z hi). by apply round1_mono.
Qed.


(** X3: a backend score that has one decimal and is not 0 is displayed as it
    is. *)
Theorem one_decimal_score_unchanged (analysis : list AnalysisEntry)
    (files : list FileRecord) (k : Z) :
  k <> 0%Z ->
  overall_score (calculateMetrics analysis files (Some (of_Z k / of_Z 10)))
  = of_Z k / of_Z 10.
Proof.
  intros Hk. cbn [overall_score calculateMetrics]. unfold overallScore.
  rewrite or_num_nonzero; [apply round1_tenths|].
  intros H. apply Hk.
  assert (this (of_Z k / of_Z 10) == 0)%Q as Hq by (by rewrite H).
  rewrite this_div, !this_of_Z in Hq. q_consts.
  unfold Qeq in Hq. cbn in Hq. lia.
Qed.

Lemma one_decimal_score_unchanged_witness :
  73%Z <> 0%Z
  /\ overall_score (calculateMetrics [] [] (Some (of_Z 73 / of_Z 10)))
     = of_Z 73 / of_Z 10.
Proof. split; [done|]. by apply one_decimal_score_unchanged. Defined.

(** *** Ranges *)

(** X4: test coverage is between 0 and 100 whatever the input, also when
    more entries are test files than there are files. *)
Theorem test_coverage_range (analysis : list AnalysisEntry)
    (files : list FileRecord) (quality_score : option num) :
  0 <= testCoverage analysis files
  /\ testCoverage analysis files <= of_Z 100
  /\ 0 <= test_coverage (calculateMetrics analysis files quality_score)
  /\ test_coverage (calculateMetrics analysis files quality_score)
     <= of_Z 100.
Proof.
  destruct (testCoverage_bounds analysis files) as [Hlo Hhi].
  destruct (round1_range _ 0 100 Hlo Hhi).
  split_and!; done.
Qed.

(** X5: with every score of the analysis between 0 and 10 and no backend
    score, the five scores stay in their ranges, before and after
    rounding. *)
Theorem scores_in_range (analysis : list AnalysisEntry)
    (files : list FileRecord) :
  Forall scoresInRange analysis ->
  let m := calculateMetrics analysis files None in
  let within (x hi : num) := 0 <= x /\ x <= hi in
  within (maintainability analysis) (of_Z 10)
  /\ within (weightedScore analysis files) (of_Z 10)
  /\ within (documentation_coverage m) (of_Z 10)
  /\ within (code_complexity m) (of_Z 10)
  /\ within (maintainability_score m) (of_Z 10)
  /\ within (test_coverage m) (of_Z 100)
  /\ within (overall_score m) (of_Z 10).
Proof.
  intros Hrange. cbv zeta.
  destruct (docCoverage_bounds analysis Hrange) as [Hd0 Hd1].
  destruct (avgComplexityOf_bounds analysis Hrange) as [Hc0 Hc1].
  destruct (testCoverage_bounds analysis files) as [Ht0 Ht1].
  assert (0 <= maintainability analysis
          /\ maintainability analysis <= of_Z 10) as [Hm0 Hm1].
  { unfold maintainability. revert Hd0 Hd1 Hc0 Hc1.
    generalize (docCoverage analysis) (avgComplexityOf analysis).
    intros d c. to_Q. intros. split; lra. }
  assert (0 <= weightedScore analysis files
          /\ weightedScore analysis files <= of_Z 10) as [Hw0 Hw1].
  { unfold weightedScore. revert Hd0 Hd1 Hc0 Hc1 Ht0 Ht1 Hm0 Hm1.
    generalize (docCoverage analysis) (avgComplexityOf analysis)
      (testCoverage analysis files) (maintainability analysis).
    intros d c t m. to_Q. intros. split; lra. }
  cbn [documentation_coverage code_complexity maintainability_score
       test_coverage overall_score calculateMetrics].
  unfold overallScore. rewrite or_num_None.
  destruct (round1_range _ 0 10 Hd0 Hd1), (round1_range _ 0 10 Hc0 Hc1),
    (round1_range _ 0 10 Hm0 Hm1), (round1_range _ 0 100 Ht0 Ht1),
    (round1_range _ 0 10 Hw0 Hw1).
  split_and!; done.
Qed.

Lemma scores_in_range_witness :
  let analysis := [Samples.entry "src/a.js" "javascript"
                     (Some (of_Z 9)) (Some (of_Z 2));
                   Samples.entry "tests/b.py" "python" None (Some (of_Z 7))] in
  let files := [Samples.file "src/a.js"; Samples.file "tests/b.py"] in
  Forall scoresInRange analysis
  /\ 0 <= overall_score (calculateMetrics analysis files None)
  /\ overall_score (calculateMetrics analysis files None) <= of_Z 10.
Proof.
  cbv zeta.
  assert (Forall scoresInRange
            [Samples.entry "src/a.js" "javascript"
               (Some (of_Z 9)) (Some (of_Z 2));
             Samples.entry "tests/b.py" "python" None (Some (of_Z 7))]) as H.
  { apply List.Forall_cons; [|apply List.Forall_cons; [|apply List.Forall_nil]];
      (split; cbn; [try done | try done]); split; by vm_compute. }
  split; [exact H|].
  apply (scores_in_range _ [Samples.file "src/a.js"; Samples.file "tests/b.py"])
    in H.
  cbv zeta in H. destruct H as (_ & _ & _ & _ & _ & _ & H). exact H.
Defined.

(** *** Statistics by language *)

Lemma foldl_stepStat_count (g : list AnalysisEntry) : forall s,
  count (foldl stepStat s g) = (count s + length g)%nat.
Proof.
  induction g as [|a g IH]; intros s; cbn [foldl length]; [lia|].
  rewrite IH. cbn. lia.
Qed.

Lemma foldl_stepStat_complexity (g : list AnalysisEntry) : forall s,
  avgComplexity (foldl stepStat s g)
  = avgComplexity s + sum (map (fun a => or_num (complexity_score a) 0) g).
Proof.
  induction g as [|a g IH]; intros s; cbn [foldl map].
  - unfold sum. cbn. ring.
  - rewrite IH, sum_cons. cbn. ring.
Qed.

Lemma foldl_stepStat_doc (g : list AnalysisEntry) : forall s,
  avgDoc (foldl stepStat s g)
  = avgDoc s + sum (map (fun a => or_num (documentation_quality a) 0) g).
Proof.
  induction g as [|a g IH]; intros s; cbn [foldl map].
  - unfold sum. cbn. ring.
  - rewrite IH, sum_cons. cbn. ring.
Qed.

Lemma finishStat_group (a : AnalysisEntry) (g : list AnalysisEntry) :
  finishStat
    (foldl stepStat {| count := 0; avgComplexity := 0; avgDoc := 0 |} (a :: g))
  = groupStat (a :: g).
Proof.
  unfold finishStat, groupStat, mean.
  rewrite foldl_stepStat_count, foldl_stepStat_complexity,
    foldl_stepStat_doc, !length_map.
  cbn [count avgComplexity avgDoc length Nat.add Nat.ltb Nat.leb].
  f_equal; f_equal; ring.
Qed.

Lemma addEntry_lookup_ne (stats : gmap string LangStat) (a : AnalysisEntry)
    (lang : string) :
  language a <> lang -> addEntry stats a !! lang = stats !! lang.
Proof.
  intros N. unfold addEntry. destruct (inheritedKey (language a)); [done|].
  by rewrite lookup_insert_ne.
Qed.

Lemma addEntry_lookup_eq (stats : gmap string LangStat) (a : AnalysisEntry) :
  inheritedKey (language a) = false ->
  addEntry stats a !! language a
  = Some (stepStat
            (default {| count := 0; avgComplexity := 0; avgDoc := 0 |}
               (stats !! language a)) a).
Proof.
  intros Ha. unfold addEntry. rewrite Ha, lookup_insert_eq.
  by destruct (stats !! language a).
Qed.

(** The loop over the analysis, seen from one language. *)
Lemma foldl_addEntry_lookup (lang : string) (analysis : list AnalysisEntry) :
  forall stats,
  foldl addEntry stats analysis !! lang
  = if inheritedKey lang then stats !! lang
    else match languageGroup lang analysis with
         | [] => stats !! lang
         | g =>
             Some (foldl stepStat
                     (default {| count := 0; avgComplexity := 0; avgDoc := 0 |}
                        (stats !! lang)) g)
         end.
Proof.
  induction analysis as [|a l IH]; intros stats.
  - cbn. by destruct (inheritedKey lang).
  - cbn [foldl]. rewrite IH. unfold languageGroup. cbn [List.filter].
    fold (languageGroup lang l).
    destruct (String.eqb_spec (language a) lang) as [E|N].
    + subst lang. destruct (inheritedKey (language a)) eqn:Ha.
      * unfold addEntry. by rewrite Ha.
      * rewrite addEntry_lookup_eq by done.
        by destruct (languageGroup (language a) l).
    + by rewrite addEntry_lookup_ne.
Qed.

(** X6: the entry of [languageStats] for a language is made of the entries of
    the analysis with that language: their number and the means of their
    scores, a missing score counting as 0.  A language without entries, or
    whose tag names an inherited property, has no entry. *)
Theorem languageStats_by_group (analysis : list AnalysisEntry)
    (lang : string) :
  languageStatsOf analysis !! lang
  = if inheritedKey lang then None
    else match languageGroup lang analysis with
         | [] => None
         | g => Some (groupStat g)
         end.
Proof.
  unfold languageStatsOf. rewrite lookup_fmap, foldl_addEntry_lookup.
  rewrite lookup_empty.
  destruct (inheritedKey lang); [done|].
  destruct (languageGroup lang analysis) as [|a g]; [done|].
  cbn [fmap option_fmap option_map default]. f_equal. apply finishStat_group.
Qed.

(** *** Missing scores *)




(** *** Colours *)

(** X7: the colour of a score follows the thresholds of the verdict: green
    goes with the success verdict, yellow with the info verdict, red with
    the warning verdict, for the text and for the bar; the reversed colour
    of a score is the colour of its distance to 10. *)
Theorem score_colour_follows_verdict (score : num) :
  (getScoreColor score false, getScoreBgColor score false)
  = match type (verdict score) with
    | success => ("text-green-600", "bg-green-500")
    | info => ("text-yellow-600", "bg-yellow-500")
    | warning => ("text-red-600", "bg-red-500")
    end
  /\ getScoreColor score true = getScoreColor (of_Z 10 - score) false
  /\ getScoreBgColor score true = getScoreBgColor (of_Z 10 - score) false.
Proof.
  split; [|done]. unfold getScoreColor, getScoreBgColor, verdict.
  destruct (geb score (of_Z 8)); [done|]. by destruct (geb score (of_Z 6)).
Qed.

End MetricsFacts.

(** ** Quality metrics in binary64: the order of the entries *)

Module Binary64Facts.

Import JS JSFacts Binary64.

Lemma testFiles_Permutation (a b : list AnalysisEntry) :
  a ≡ₚ b -> testFiles a = testFiles b.
Proof.
  intros Hp. unfold testFiles. apply Permutation_length.
  induction Hp; simpl.
  - constructor.
  - destruct (isTestFile x); [by constructor | done].
  - destruct (isTestFile x), (isTestFile y); try done; by constructor.
  - by etrans.
Qed.

(** Counting the entries of a language does not see the order. *)
Lemma addCount_comm (m : gmap string nat) (a b : AnalysisEntry) :
  addCount (addCount m a) b = addCount (addCount m b) a.
Proof.
  unfold addCount.
  destruct (inheritedKey (language a)) eqn:Ha,
    (inheritedKey (language b)) eqn:Hb; rewrite ?Ha, ?Hb; try reflexivity.
  destruct (decide (language a = language b)) as [E|N].
  - rewrite <- E. by rewrite !lookup_insert_eq, !insert_insert_eq.
  - rewrite (lookup_insert_ne _ (language a) (language b)) by done.
    rewrite (lookup_insert_ne _ (language b) (language a)) by done.
    by apply insert_insert_ne.
Qed.

Lemma languageCounts_Permutation (a b : list AnalysisEntry) :
  a ≡ₚ b -> languageCounts a = languageCounts b.
Proof.
  intros Hp. unfold languageCounts.
  apply foldl_Permutation; [|done]. intros; apply addCount_comm.
Qed.

(** The counters of [languageStats] are these counts: the loop adds 1 for
    each entry, the final division leaves [count] alone. *)
Lemma addEntry_count (m : gmap string LangStat) (a : AnalysisEntry) :
  count <$> addEntry m a = addCount (count <$> m) a.
Proof.
  unfold addEntry, addCount. destruct (inheritedKey (language a)); [done|].
  rewrite fmap_insert, lookup_fmap. by destruct (m !! language a).
Qed.

Lemma foldl_addEntry_count (l : list AnalysisEntry) :
  forall m, count <$> foldl addEntry m l = foldl addCount (count <$> m) l.
Proof.
  induction l as [|a l IH]; intros m; [done|].
  cbn [foldl]. by rewrite IH, addEntry_count.
Qed.

Lemma languageStatsOf_count (l : list AnalysisEntry) :
  count <$> languageStatsOf l = languageCounts l.
Proof.
  unfold languageStatsOf, languageCounts.
  rewrite <- map_fmap_compose.
  rewrite <- (fmap_empty count), <- foldl_addEntry_count.
  by apply map_fmap_ext.
Qed.

(** C9, as stated, fails on the numbers the code computes with: the sums
    are made from the left in binary64, and 7.8 + 0.1 + 7.1 is 15 while
    7.8 + 7.1 + 0.1 is 14.999999999999998.  The mean of the documentation
    scores is 5 in one order and below 5 in the other, where the
    documentation warning is added to the recommendations. *)
Lemma sum_order_changes_result :
  let e := Samples.entry64 "src/a.py" "python" (Some 1%float) in
  let a := [e (Some 7.8%float); e (Some 0.1%float); e (Some 7.1%float)] in
  let b := [e (Some 7.8%float); e (Some 7.1%float); e (Some 0.1%float)] in
  let files := [Samples.file "src/a.py"] in
  a ≡ₚ b
  /\ calculateMetrics a files None <> calculateMetrics b files None.
Proof.
  cbv zeta. split; [apply perm_skip, perm_swap|].
  intros H. apply (f_equal recommendations) in H.
  vm_compute in H. discriminate H.
Qed.

(** C9, amended: a permutation of the analysis leaves [totalFiles],
    [analyzedFiles], [test_coverage] and the languages of [languageStats]
    with their counts as they are; and when the documentation scores and
    the complexity scores add up to the same sums in both orders, the five
    scores and the recommendations are the same as well. *)
Theorem order_independent_outputs (a b : list AnalysisEntry)
    (files : list FileRecord) (quality_score : option num) :
  a ≡ₚ b ->
  let m := calculateMetrics a files quality_score in
  let m' := calculateMetrics b files quality_score in
  let docs l := map (fun e => or_num (documentation_quality e) 0) l in
  let cplxs l := map (fun e => or_num (complexity_score e) 0) l in
  totalFiles m = totalFiles m'
  /\ analyzedFiles m = analyzedFiles m'
  /\ test_coverage m = test_coverage m'
  /\ count <$> languageStats m = count <$> languageStats m'
  /\ (sum (docs a) = sum (docs b) -> sum (cplxs a) = sum (cplxs b) ->
      documentation_coverage m = documentation_coverage m'
      /\ code_complexity m = code_complexity m'
      /\ maintainability_score m = maintainability_score m'
      /\ overall_score m = overall_score m'
      /\ recommendations m = recommendations m').
Proof.
  intros Hp. cbv zeta.
  cbn [totalFiles analyzedFiles test_coverage languageStats
       documentation_coverage code_complexity maintainability_score
       overall_score recommendations calculateMetrics].
  assert (testCoverage a files = testCoverage b files) as Ht.
  { unfold testCoverage. by rewrite (testFiles_Permutation _ _ Hp). }
  split_and!.
  - done.
  - by apply Permutation_length.
  - by rewrite Ht.
  - rewrite !languageStatsOf_count. by apply languageCounts_Permutation.
  - intros Hd Hc.
    assert (docCoverage a = docCoverage b) as Hdoc.
    { unfold docCoverage, mean.
      by rewrite !length_map, Hd, (Permutation_length Hp). }
    assert (avgComplexityOf a = avgComplexityOf b) as Hcplx.
    { unfold avgComplexityOf, mean.
      by rewrite !length_map, Hc, (Permutation_length Hp). }
    unfold overallScore, weightedScore, maintainability.
    by rewrite Hdoc, Hcplx, Ht.
Qed.

Lemma order_independent_outputs_witness :
  let x := Samples.entry64 "src/a.js" "javascript"
             (Some 9%float) (Some 2.5%float) in
  let y := Samples.entry64 "tests/b.py" "python" None (Some 7%float) in
  let z := Samples.entry64 "src/c.js" "javascript" (Some 4%float) None in
  let files := [Samples.file "src/a.js"; Samples.file "tests/b.py";
                Samples.file "src/c.js"; Samples.file "README.md"] in
  [x; y; z] ≡ₚ [z; x; y]
  /\ test_coverage (calculateMetrics [x; y; z] files None)
     = test_coverage (calculateMetrics [z; x; y] files None)
  /\ count <$> languageStats (calculateMetrics [x; y; z] files None)
     = count <$> languageStats (calculateMetrics [z; x; y] files None)
  /\ overall_score (calculateMetrics [x; y; z] files None)
     = overall_score (calculateMetrics [z; x; y] files None)
  /\ recommendations (calculateMetrics [x; y; z] files None)
     = recommendations (calculateMetrics [z; x; y] files None).
Proof.
  cbv zeta.
  assert (forall x y z : AnalysisEntry, [x; y; z] ≡ₚ [z; x; y]) as Hp.
  { intros x y z. etrans; [apply perm_skip, perm_swap | apply perm_swap]. }
  split; [apply Hp|].
  match goal with
  | |- test_coverage (calculateMetrics ?a ?f ?q)
       = test_coverage (calculateMetrics ?b ?f ?q) /\ _ =>
      pose proof (order_independent_outputs a b f q (Hp _ _ _)) as H
  end.
  cbv zeta in H. destruct H as (_ & _ & Ht & Hl & Hs).
  destruct Hs as (_ & _ & _ & Ho & Hr); [reflexivity | reflexivity |].
  by split_and!.
Defined.

End Binary64Facts.


(** ** The regular-expression matcher *)

Module RegexFacts.

Import Regex RegexSpec.

Lemma append_nil_l (s : string) : "" ++ s = s.
Proof. reflexivity. Qed.

Lemma append_cons (c : Ascii.ascii) (a b : string) :
  String c a ++ b = String c (a ++ b).
Proof. reflexivity. Qed.

Lemma append_nil_r (s : string) : s ++ "" = s.
Proof.
  induction s as [|c s IH]; [done|]. by rewrite append_cons, IH.
Qed.

Lemma append_assoc (a b c : string) : (a ++ b) ++ c = a ++ (b ++ c).
Proof.
  induction a as [|x a IH]; [done|]. by rewrite !append_cons, IH.
Qed.

Lemma append_eq_nil (a b : string) : a ++ b = "" -> a = "" /\ b = "".
Proof. destruct a; [done|]. rewrite append_cons. discriminate. Qed.

Lemma nullable_Matches (r : regex) : nullable r = true <-> Matches r "".
Proof.
  induction r as [| |p|r1 IH1 r2 IH2|r1 IH1 r2 IH2|r IH]; cbn.
  - split; [done|]. inversion 1.
  - split; [constructor | done].
  - split; [done|]. inversion 1.
  - rewrite andb_true_iff, IH1, IH2. split.
    + intros [H1 H2]. apply (MatchesSeq _ _ "" "" H1 H2).
    + inversion 1 as [| |? ? s1 s2 H1 H2 E1 E2| | | |]; subst.
      apply append_eq_nil in E2 as [-> ->]. done.
  - rewrite orb_true_iff, IH1, IH2. split.
    + intros [H|H]; [by apply MatchesAltL | by apply MatchesAltR].
    + inversion 1; subst; [by left | by right].
  - split; [constructor | done].
Qed.

(** A match of a starred expression on a non-empty string starts with a
    non-empty match of the expression. *)
Lemma Matches_Star_cons (r : regex) (c : Ascii.ascii) (s : string) :
  Matches (Star r) (String c s) ->
  exists s1 s2, s = s1 ++ s2 /\ Matches r (String c s1) /\ Matches (Star r) s2.
Proof.
  intros H. remember (Star r) as e eqn:He. remember (String c s) as w eqn:Hw.
  revert He Hw.
  induction H as [| | | | | |r' s1 s2 H1 _ H2 IH2]; intros He Hw;
    try discriminate.
  injection He as ->. destruct s1 as [|c1 s1].
  - rewrite append_nil_l in Hw. by apply IH2.
  - rewrite append_cons in Hw. injection Hw as -> <-. by exists s1, s2.
Qed.

Lemma deriv_Matches (c : Ascii.ascii) (r : regex) : forall s,
  Matches (deriv c r) s <-> Matches r (String c s).
Proof.
  induction r as [| |p|r1 IH1 r2 IH2|r1 IH1 r2 IH2|r IH]; intros s; cbn.
  - split; inversion 1.
  - split; inversion 1.
  - destruct (p c) eqn:Hp; split.
    + inversion 1; subst. by constructor.
    + inversion 1; subst. constructor.
    + inversion 1.
    + inversion 1; subst. congruence.
  - assert (Matches (Seq (deriv c r1) r2) s
            <-> exists s1 s2, s = s1 ++ s2 /\ Matches r1 (String c s1)
                              /\ Matches r2 s2) as Hseq.
    { split.
      - inversion 1 as [| |? ? s1 s2 H1 H2| | | |]; subst.
        exists s1, s2. by rewrite <- IH1.
      - intros (s1 & s2 & -> & H1 & H2). constructor; [by apply IH1 | done]. }
    assert (Matches (Seq r1 r2) (String c s)
            <-> (exists s1 s2, s = s1 ++ s2 /\ Matches r1 (String c s1)
                               /\ Matches r2 s2)
                \/ (Matches r1 "" /\ Matches r2 (String c s))) as Hcons.
    { split.
      - inversion 1 as [| |? ? s1 s2 H1 H2 E1 E2| | | |]; subst.
        destruct s1 as [|c1 s1].
        + rewrite append_nil_l in E2. subst s2. by right.
        + rewrite append_cons in E2. injection E2 as -> <-. left.
          by exists s1, s2.
      - intros [(s1 & s2 & -> & H1 & H2)|[H1 H2]].
        + apply (MatchesSeq _ _ (String c s1) s2 H1 H2).
        + apply (MatchesSeq _ _ "" _ H1 H2). }
    rewrite Hcons. destruct (nullable r1) eqn:Hn.
    + apply nullable_Matches in Hn. split.
      * inversion 1; subst; [left; by apply Hseq | right; by rewrite <- IH2].
      * intros [H|[_ H]];
          [apply MatchesAltL; by apply Hseq | apply MatchesAltR; by apply IH2].
    + rewrite Hseq. split; [by left|]. intros [H|[H _]]; [done|].
      apply nullable_Matches in H. congruence.
  - split.
    + inversion 1; subst;
        [apply MatchesAltL; by apply IH1 | apply MatchesAltR; by apply IH2].
    + inversion 1; subst;
        [apply MatchesAltL; by apply IH1 | apply MatchesAltR; by apply IH2].
  - split.
    + inversion 1 as [| |? ? s1 s2 H1 H2| | | |]; subst.
      apply (MatchesStarApp _ (String c s1) s2); [by apply IH | done].
    + intros (s1 & s2 & -> & H1 & H2)%Matches_Star_cons.
      constructor; [by apply IH | done].
Qed.

(** The matcher accepts the strings of the language, and only them. *)
Lemma test_Matches (s : string) : forall r,
  test r s = true <-> Matches r s.
Proof.
  induction s as [|c s IH]; intros r; cbn.
  - apply nullable_Matches.
  - rewrite IH. apply deriv_Matches.
Qed.

(** *** The shapes used by the patterns *)

Lemma Matches_Lit (p s : string) : Matches (Lit p) s <-> s = p.
Proof.
  revert s. induction p as [|c p IH]; intros s; cbn.
  - split; [by inversion 1 | intros ->; constructor].
  - split.
    + inversion 1 as [| |? ? s1 s2 H1 H2| | | |]; subst.
      inversion H1 as [|? ? Hc| | | | |]; subst.
      apply Ascii.eqb_eq in Hc as <-. apply IH in H2 as ->. done.
    + intros ->. apply (MatchesSeq _ _ (String c "") p).
      * constructor. apply Ascii.eqb_refl.
      * by apply IH.
Qed.

Lemma Matches_Star_Class (p : Ascii.ascii -> bool) (s : string) :
  Matches (Star (Class p)) s <-> allChars p s = true.
Proof.
  split.
  - intros H. remember (Star (Class p)) as e eqn:He.
    induction H as [| | | | | |r' s1 s2 H1 _ H2 IH2]; try discriminate; [done|].
    injection He as ->. inversion H1 as [|? c Hc| | | | |]; subst.
    rewrite append_cons, append_nil_l. cbn [allChars].
    by rewrite Hc, IH2.
  - induction s as [|c s IH]; cbn; [constructor|].
    intros [Hc Hs]%andb_true_iff.
    apply (MatchesStarApp _ (String c "") s); [by constructor | by apply IH].
Qed.

Lemma Matches_name (s : string) : Matches Api.name s <-> isName s = true.
Proof.
  unfold Api.name, Plus, isName. split.
  - inversion 1 as [| |? ? s1 s2 H1 H2| | | |]; subst.
    inversion H1 as [|? c Hc| | | | |]; subst.
    apply Matches_Star_Class in H2.
    rewrite append_cons, append_nil_l. cbn. by rewrite Hc, H2.
  - destruct s as [|c s]; [done|]. cbn.
    intros [Hc Hs]%andb_true_iff.
    apply (MatchesSeq _ _ (String c "") s); [by constructor|].
    by apply Matches_Star_Class.
Qed.

Lemma Matches_Seq (r1 r2 : regex) (s : string) :
  Matches (Seq r1 r2) s
  <-> exists s1 s2, s = s1 ++ s2 /\ Matches r1 s1 /\ Matches r2 s2.
Proof.
  split.
  - inversion 1; subst. eauto.
  - intros (s1 & s2 & -> & H1 & H2). by constructor.
Qed.

End RegexFacts.


(** ** Repository references and error messages *)

Module ApiFacts.

Import JS Regex RegexSpec RegexFacts Api ReferenceSpec.

(** *** [trim] *)

Lemma trimStart_head (s : string) :
  match trimStart s with
  | EmptyString => True
  | String c _ => isSpace c = false
  end.
Proof.
  induction s as [|c s IH]; cbn; [done|].
  destruct (isSpace c) eqn:Hc; [done|]. exact Hc.
Qed.

Lemma trimStart_fixed (s : string) :
  match s with
  | EmptyString => True
  | String c _ => isSpace c = false
  end ->
  trimStart s = s.
Proof. destruct s as [|c s]; cbn; [done|]. by intros ->. Qed.

Lemma trimEnd_head (s : string) :
  match s with
  | EmptyString => True
  | String c _ => isSpace c = false
  end ->
  match trimEnd s with
  | EmptyString => True
  | String c _ => isSpace c = false
  end.
Proof.
  destruct s as [|c s]; cbn; [done|]. intros Hc.
  destruct (trimEnd s); [by rewrite Hc | done].
Qed.

Lemma trimEnd_cons (c : Ascii.ascii) (r : string) :
  trimEnd (String c r)
  = match trimEnd r with
    | EmptyString => if isSpace c then EmptyString else String c EmptyString
    | r' => String c r'
    end.
Proof. reflexivity. Qed.

Lemma trimEnd_idemp (s : string) : trimEnd (trimEnd s) = trimEnd s.
Proof.
  induction s as [|c s IH]; [done|]. rewrite trimEnd_cons.
  destruct (trimEnd s) as [|c' s'] eqn:E.
  - destruct (isSpace c) eqn:Hc; [done|]. rewrite trimEnd_cons. cbn.
    by rewrite Hc.
  - rewrite trimEnd_cons, IH. done.
Qed.

Lemma trim_idemp (s : string) : trim (trim s) = trim s.
Proof.
  unfold trim.
  rewrite (trimStart_fixed (trimEnd (trimStart s))).
  - apply trimEnd_idemp.
  - apply trimEnd_head, trimStart_head.
Qed.

(** X8: validation does not see white space around the reference. *)
Theorem validateGitHubUrl_trim (url : string) :
  validateGitHubUrl (trim url) = validateGitHubUrl url.
Proof. unfold validateGitHubUrl. by rewrite trim_idemp. Qed.

(** *** The accepted references *)

Lemma allChars_app (p : Ascii.ascii -> bool) (a b : string) :
  allChars p (a ++ b) = allChars p a && allChars p b.
Proof.
  induction a as [|c a IH]; [done|].
  rewrite append_cons. cbn [allChars]. by rewrite IH, andb_assoc.
Qed.

Lemma isName_git (repo : string) :
  isName repo = true -> isName (repo ++ ".git") = true.
Proof.
  unfold isName. intros [Hne Hall]%andb_true_iff.
  rewrite allChars_app, Hall. destruct repo; [done|]. reflexivity.
Qed.

Lemma Matches_opt_slash (s : string) :
  Matches (Opt (Lit "/")) s <-> s = "/" \/ s = "".
Proof.
  unfold Opt. split.
  - inversion 1 as [| | |? ? ? H1|? ? ? H1| |]; subst.
    + left. by apply Matches_Lit.
    + right. by inversion H1.
  - intros [->| ->]; [apply MatchesAltL; by apply Matches_Lit|].
    apply MatchesAltR. constructor.
Qed.

Lemma test_patternWeb (s : string) :
  test patternWeb s = true
  <-> exists owner repo,
        isName owner = true /\ isName repo = true
        /\ (s = webReference owner repo \/ s = webReference owner repo ++ "/").
Proof.
  rewrite test_Matches. unfold patternWeb, webReference. split.
  - intros (s1 & t1 & -> & ->%Matches_Lit
            & (owner & t2 & -> & Ho%Matches_name
               & (s3 & t3 & -> & ->%Matches_Lit
                  & (repo & t4 & -> & Hr%Matches_name
                     & Ht%Matches_opt_slash)%Matches_Seq)%Matches_Seq)%Matches_Seq)%Matches_Seq.
    exists owner, repo. split_and!; [done | done |].
    destruct Ht as [-> | ->].
    + right. by rewrite !append_assoc.
    + left. by rewrite append_nil_r.
  - intros (owner & repo & Ho & Hr & Hs).
    apply Matches_Seq. eexists _, _. split; [|split; [by apply Matches_Lit|]].
    2:{ apply Matches_Seq. exists owner. eexists.
        split; [reflexivity|]. split; [by apply Matches_name|].
        apply Matches_Seq. exists "/". eexists.
        split; [reflexivity|]. split; [by apply Matches_Lit|].
        apply Matches_Seq. exists repo. eexists.
        split; [reflexivity|]. split; [by apply Matches_name|].
        apply Matches_opt_slash.
        instantiate (1 := if bool_decide (s = webReference owner repo)
                          then "" else "/").
        case_bool_decide; [by right | by left]. }
    case_bool_decide as E.
    + rewrite E. unfold webReference. by rewrite append_nil_r.
    + destruct Hs as [Hs|Hs]; [done|]. rewrite Hs. unfold webReference.
      by rewrite !append_assoc.
Qed.

Lemma test_patternSsh (s : string) :
  test patternSsh s = true
  <-> exists owner repo,
        isName owner = true /\ isName repo = true
        /\ s = sshReference owner repo.
Proof.
  rewrite test_Matches. unfold patternSsh, sshReference. split.
  - intros (s1 & t1 & -> & ->%Matches_Lit
            & (owner & t2 & -> & Ho%Matches_name
               & (s3 & t3 & -> & ->%Matches_Lit
                  & (repo & t4 & -> & Hr%Matches_name
                     & ->%Matches_Lit)%Matches_Seq)%Matches_Seq)%Matches_Seq)%Matches_Seq.
    by exists owner, repo.
  - intros (owner & repo & Ho & Hr & ->).
    apply Matches_Seq. eexists _, _. split; [reflexivity|].
    split; [by apply Matches_Lit|].
    apply Matches_Seq. exists owner. eexists.
    split; [reflexivity|]. split; [by apply Matches_name|].
    apply Matches_Seq. exists "/". eexists.
    split; [reflexivity|]. split; [by apply Matches_Lit|].
    apply Matches_Seq. exists repo. eexists.
    split; [reflexivity|]. split; [by apply Matches_name|].
    by apply Matches_Lit.
Qed.

Lemma test_patternWebGit (s : string) :
  test patternWebGit s = true
  <-> exists owner repo,
        isName owner = true /\ isName repo = true
        /\ s = webReference owner (repo ++ ".git").
Proof.
  rewrite test_Matches. unfold patternWebGit, webReference. split.
  - intros (s1 & t1 & -> & ->%Matches_Lit
            & (owner & t2 & -> & Ho%Matches_name
               & (s3 & t3 & -> & ->%Matches_Lit
                  & (repo & t4 & -> & Hr%Matches_name
                     & ->%Matches_Lit)%Matches_Seq)%Matches_Seq)%Matches_Seq)%Matches_Seq.
    by exists owner, repo.
  - intros (owner & repo & Ho & Hr & ->).
    apply Matches_Seq. eexists _, _. split; [reflexivity|].
    split; [by apply Matches_Lit|].
    apply Matches_Seq. exists owner. eexists.
    split; [reflexivity|]. split; [by apply Matches_name|].
    apply Matches_Seq. exists "/". eexists.
    split; [reflexivity|]. split; [by apply Matches_Lit|].
    apply Matches_Seq. exists repo. eexists.
    split; [reflexivity|]. split; [by apply Matches_name|].
    by apply Matches_Lit.
Qed.

(** The references the three patterns accept, after trimming. *)
Lemma validateGitHubUrl_language (url : string) :
  validateGitHubUrl url = true
  <-> exists owner repo,
        isName owner = true /\ isName repo = true
        /\ (trim url = webReference owner repo
            \/ trim url = webReference owner repo ++ "/"
            \/ trim url = sshReference owner repo).
Proof.
  unfold validateGitHubUrl, githubPatterns. cbn [existsb].
  rewrite orb_false_r, !orb_true_iff.
  rewrite test_patternWeb, test_patternSsh, test_patternWebGit. split.
  - intros [(o & r & Ho & Hr & [H|H])|[(o & r & Ho & Hr & H)|(o & r & Ho & Hr & H)]].
    + exists o, r. auto.
    + exists o, r. auto.
    + exists o, r. auto.
    + exists o, (r ++ ".git"). split_and!; [done | by apply isName_git | by left].
  - intros (o & r & Ho & Hr & [H|[H|H]]).
    + left. exists o, r. auto.
    + left. exists o, r. auto.
    + right. left. by exists o, r.
Qed.

(** X9: the references that validate are exactly, after trimming,
    [https://github.com/owner/repo], the same with a closing slash, and
    [git@github.com:owner/repo.git], for an owner and a repository name made
    of letters, digits, [_], [.] and [-]; the third pattern accepts nothing
    that the first does not. *)
Theorem validateGitHubUrl_accepts (url : string) :
  validateGitHubUrl url = true
  <-> exists owner repo,
        isName owner = true /\ isName repo = true
        /\ (trim url = webReference owner repo
            \/ trim url = webReference owner repo ++ "/"
            \/ trim url = sshReference owner repo).
Proof. exact (validateGitHubUrl_language url). Qed.

(** *** Error messages *)

(** X10: [formatError] always has something to show: its result is never
    the empty string, whatever the error object holds. *)
Theorem formatError_nonempty (e : Error) : formatError e <> "".
Proof.
  unfold formatError.
  repeat (match goal with |- context [if ?b then _ else _] => destruct b end;
          [done|]).
  by apply SubmissionFacts.or_str_nonempty.
Qed.

(** *** [extractRepoInfo] *)

Lemma span_app (p : Ascii.ascii -> bool) (a b : string) :
  allChars p a = true ->
  match b with
  | EmptyString => True
  | String c _ => p c = false
  end ->
  span p (a ++ b) = (a, b).
Proof.
  intros Ha Hb. induction a as [|c a IH].
  - rewrite append_nil_l. destruct b as [|c b]; cbn; [done|]. by rewrite Hb.
  - cbn [allChars] in Ha. apply andb_true_iff in Ha as [Hc Ha].
    rewrite append_cons. cbn [span]. by rewrite Hc, IH.
Qed.

Lemma span_spec (p : Ascii.ascii -> bool) (s : string) :
  let '(a, b) := span p s in
  s = a ++ b /\ allChars p a = true
  /\ match b with
     | EmptyString => True
     | String c _ => p c = false
     end.
Proof.
  induction s as [|c s IH]; cbn [span]; [done|].
  destruct (p c) eqn:Hc.
  - destruct (span p s) as [a b]. destruct IH as (-> & Ha & Hb).
    rewrite append_cons. cbn [allChars]. by rewrite Hc, Ha.
  - by rewrite append_nil_l.
Qed.

(** The groups of a match: an owner without slash and a repository name
    without slash or dot, neither of them empty. *)
Lemma extractRepoInfo_groups (url : string) :
  match extractRepoInfo url with
  | Some i =>
      owner i <> "" /\ allChars notSlash (owner i) = true
      /\ repo i <> "" /\ allChars notSlashDot (repo i) = true
  | None => True
  end.
Proof.
  induction url as [|c url IH].
  - cbn. done.
  - cbn [extractRepoInfo].
    destruct (matchRepoAt (String c url)) as [[o r]|] eqn:E; [|exact IH].
    unfold matchRepoAt in E.
    destruct (String.prefix "github.com/" (String c url)); [|done].
    pose proof (span_spec notSlash (dropString 11 (String c url))) as H1.
    fold notSlash in E.
    destruct (span notSlash (dropString 11 (String c url))) as [o' rest].
    destruct H1 as (_ & Ho & _).
    destruct o' as [|co o']; [done|]. destruct rest as [|cr rest']; [done|].
    pose proof (span_spec notSlashDot rest') as H2. fold notSlashDot in E.
    destruct (span notSlashDot rest') as [r' rest2].
    destruct H2 as (_ & Hr & _).
    destruct r' as [|c2 r']; [done|]. injection E as <- <-. done.
Qed.

(** X11: what [extractRepoInfo] returns is well formed: the owner is not
    empty and has no slash, the repository name is not empty and has neither
    slash nor dot. *)
Theorem extractRepoInfo_shape (url : string) :
  match extractRepoInfo url with
  | Some i =>
      owner i <> "" /\ allChars notSlash (owner i) = true
      /\ repo i <> "" /\ allChars notSlashDot (repo i) = true
  | None => True
  end.
Proof. exact (extractRepoInfo_groups url). Qed.

(** *** Counting slashes *)

Lemma countChar_app (c : Ascii.ascii) (a b : string) :
  countChar c (a ++ b) = (countChar c a + countChar c b)%nat.
Proof.
  induction a as [|x a IH]; [done|].
  rewrite append_cons. cbn [countChar]. rewrite IH. lia.
Qed.

Lemma countChar_dropString (c : Ascii.ascii) (n : nat) : forall s,
  countChar c (dropString n s) <= countChar c s.
Proof.
  induction n as [|n IH]; intros [|x s]; cbn [dropString countChar]; try lia.
  specialize (IH s). lia.
Qed.

Lemma prefix_github_slash (s : string) :
  String.prefix "github.com/" s = true ->
  (countChar "/" (dropString 11 s) < countChar "/" s)%nat.
Proof.
  intros H.
  do 11 (destruct s as [|? s]; [discriminate H|];
         cbn [String.prefix] in H;
         match type of H with (if ?d then _ else _) = true =>
           destruct d as [<-|?]; [|discriminate H] end).
  cbn. lia.
Qed.

Lemma matchRepoAt_slashes (s : string) :
  is_Some (matchRepoAt s) -> 2 <= countChar "/" s.
Proof.
  unfold matchRepoAt. intros [x E].
  destruct (String.prefix "github.com/" s) eqn:Hp; [|done].
  apply prefix_github_slash in Hp.
  pose proof (span_spec notSlash (dropString 11 s)) as H1.
  fold notSlash in E.
  destruct (span notSlash (dropString 11 s)) as [o rest].
  destruct H1 as (Hs & _ & Hrest).
  destruct o as [|co o]; [done|]. destruct rest as [|cr rest']; [done|].
  assert (cr = "/"%char) as ->.
  { unfold notSlash in Hrest. apply negb_false_iff, Ascii.eqb_eq in Hrest.
    done. }
  rewrite Hs, countChar_app in Hp. cbn [countChar] in Hp.
  rewrite Ascii.eqb_refl in Hp. lia.
Qed.

Lemma extractRepoInfo_slashes (s : string) :
  is_Some (extractRepoInfo s) -> 2 <= countChar "/" s.
Proof.
  induction s as [|c s IH]; cbn [extractRepoInfo].
  - cbn. by intros [? ?].
  - destruct (matchRepoAt (String c s)) as [[o r]|] eqn:E.
    + intros _. apply matchRepoAt_slashes. by rewrite E.
    + intros H%IH. cbn [countChar]. lia.
Qed.

Lemma countChar_trimStart (c : Ascii.ascii) (s : string) :
  countChar c (trimStart s) <= countChar c s.
Proof.
  induction s as [|x s IH]; cbn [trimStart countChar]; [lia|].
  destruct (isSpace x); cbn [countChar]; lia.
Qed.

Lemma countChar_trimStart_eq (c : Ascii.ascii) (s : string) :
  isSpace c = false -> countChar c (trimStart s) = countChar c s.
Proof.
  intros Hc. induction s as [|x s IH]; cbn [trimStart countChar]; [done|].
  destruct (isSpace x) eqn:Hx; [|done].
  destruct (Ascii.eqb_spec x c) as [->|_]; [congruence|]. by rewrite IH.
Qed.

Lemma countChar_trimEnd_eq (c : Ascii.ascii) (s : string) :
  isSpace c = false -> countChar c (trimEnd s) = countChar c s.
Proof.
  intros Hc. induction s as [|x s IH]; [done|]. rewrite trimEnd_cons.
  cbn [countChar]. rewrite <- IH.
  destruct (trimEnd s) as [|y r]; [|done].
  destruct (isSpace x) eqn:Hx; [|done].
  destruct (Ascii.eqb_spec x c) as [->|_]; [congruence | done].
Qed.

Lemma countChar_trim (c : Ascii.ascii) (s : string) :
  isSpace c = false -> countChar c (trim s) = countChar c s.
Proof.
  intros Hc. unfold trim.
  by rewrite countChar_trimEnd_eq, countChar_trimStart_eq.
Qed.

Lemma countChar_allChars (c : Ascii.ascii) (p : Ascii.ascii -> bool)
    (s : string) :
  p c = false -> allChars p s = true -> countChar c s = 0.
Proof.
  intros Hc. induction s as [|x s IH]; [done|]. cbn [allChars countChar].
  intros [Hx Hs]%andb_true_iff.
  destruct (Ascii.eqb_spec x c) as [->|_]; [congruence|]. by rewrite IH.
Qed.

Lemma isName_no_slash (s : string) :
  isName s = true -> countChar "/" s = 0.
Proof.
  intros [_ H]%andb_true_iff. by apply (countChar_allChars _ nameChar).
Qed.

(** X12: a reference of the SSH shape validates, but [extractRepoInfo]
    finds no repository in it, so the repository name sent to the backend
    is "unknown". *)
Theorem ssh_reference_is_unknown (url owner repo : string) :
  isName owner = true -> isName repo = true ->
  trim url = sshReference owner repo ->
  validateGitHubUrl url = true
  /\ extractRepoInfo url = None
  /\ forall branch,
       (RepoInput.handleSubmit false
          (RepoInput.setBranch branch (RepoInput.handleUrlChange url RepoInput.init))).2
       = Some {| RepoInput.repo_url := sshReference owner repo;
                 RepoInput.repo_branch := or_str (Some branch) "main";
                 RepoInput.repo_name := "unknown" |}.
Proof.
  intros Ho Hr Hurl.
  assert (validateGitHubUrl url = true) as Hvalid.
  { apply validateGitHubUrl_language. exists owner, repo. auto. }
  assert (extractRepoInfo url = None) as Hnone.
  { destruct (extractRepoInfo url) as [i|] eqn:E; [|done]. exfalso.
    assert (2 <= countChar "/" url) as H2
      by (apply extractRepoInfo_slashes; by rewrite E).
    rewrite <- (countChar_trim "/" url), Hurl in H2 by done.
    unfold sshReference in H2. rewrite !countChar_app in H2.
    rewrite (isName_no_slash owner), (isName_no_slash repo) in H2 by done.
    cbn in H2. lia. }
  split_and!; [done | done |]. intros branch.
  unfold RepoInput.handleSubmit. cbn [RepoInput.isValid RepoInput.setBranch
    RepoInput.handleUrlChange RepoInput.repoUrl RepoInput.branch].
  rewrite Hvalid, Hnone, Hurl. reflexivity.
Qed.

Lemma ssh_reference_is_unknown_witness :
  isName "acme" = true /\ isName "widgets" = true
  /\ trim " git@github.com:acme/widgets.git" = sshReference "acme" "widgets"
  /\ extractRepoInfo " git@github.com:acme/widgets.git" = None.
Proof.
  split; [reflexivity|]. split; [reflexivity|]. split; [reflexivity|].
  apply (ssh_reference_is_unknown _ "acme" "widgets"); reflexivity.
Defined.

(** *** The repository of a web reference *)

Lemma matchRepoAt_other (c : Ascii.ascii) (s : string) :
  c <> "g"%char -> matchRepoAt (String c s) = None.
Proof.
  intros Hc. unfold matchRepoAt. cbn [String.prefix].
  by destruct (Ascii.ascii_dec "g" c) as [<-|_].
Qed.

Lemma extractRepoInfo_skip (c : Ascii.ascii) (s : string) :
  c <> "g"%char -> extractRepoInfo (String c s) = extractRepoInfo s.
Proof.
  intros Hc. cbn [extractRepoInfo]. by rewrite matchRepoAt_other.
Qed.

Lemma extractRepoInfo_match (s o r : string) :
  matchRepoAt s = Some (o, r) ->
  extractRepoInfo s = Some {| Api.owner := o; Api.repo := r |}.
Proof. intros H. destruct s; cbn [extractRepoInfo]; by rewrite H. Qed.

Lemma extractRepoInfo_spaces (ws s : string) :
  allChars isSpace ws = true ->
  extractRepoInfo (ws ++ s) = extractRepoInfo s.
Proof.
  induction ws as [|c ws IH]; [done|]. cbn [allChars].
  intros [Hc Hws]%andb_true_iff. rewrite append_cons.
  rewrite extractRepoInfo_skip; [by apply IH|]. by intros ->.
Qed.

Lemma allChars_impl (p q : Ascii.ascii -> bool) (s : string) :
  (forall c, p c = true -> q c = true) ->
  allChars p s = true -> allChars q s = true.
Proof.
  intros Hpq. induction s as [|c s IH]; [done|]. cbn [allChars].
  intros [Hc Hs]%andb_true_iff. by rewrite (Hpq c Hc), IH.
Qed.

Lemma nameChar_notSlash (c : Ascii.ascii) :
  nameChar c = true -> notSlash c = true.
Proof.
  intros Hc. unfold notSlash. destruct (Ascii.eqb_spec c "/") as [->|_]; done.
Qed.

(** X13: in a web reference, possibly after white space and before a
    closing slash, [extractRepoInfo] finds the owner, and as repository the
    name up to its first dot: [next.js] is read as [next]. *)
Theorem web_reference_repo_name (ws owner repo tail : string) :
  allChars isSpace ws = true ->
  isName owner = true -> isName repo = true ->
  tail = "" \/ tail = "/" ->
  (span notSlashDot repo).1 <> "" ->
  extractRepoInfo (ws ++ webReference owner repo ++ tail)
  = Some {| Api.owner := owner; Api.repo := (span notSlashDot repo).1 |}.
Proof.
  intros Hws [Hone Ho]%andb_true_iff [_ Hr]%andb_true_iff Htail Hr1.
  rewrite extractRepoInfo_spaces by done.
  unfold webReference. rewrite !append_assoc.
  change ("https://github.com/" ++ owner ++ "/" ++ repo ++ tail)
    with ("https://" ++ "github.com/" ++ owner ++ "/" ++ repo ++ tail).
  rewrite !append_cons, append_nil_l.
  do 8 (rewrite extractRepoInfo_skip by done).
  pose proof (span_spec notSlashDot repo) as Hspan.
  destruct (span notSlashDot repo) as [r1 r2] eqn:Er.
  destruct Hspan as (Hrepo & Hr1all & Hr2). cbn [fst] in Hr1 |- *.
  assert (span notSlash (owner ++ "/" ++ repo ++ tail)
          = (owner, "/" ++ repo ++ tail)) as Hs1.
  { apply span_app; [|done].
    eapply allChars_impl; [apply nameChar_notSlash | done]. }
  assert (span notSlashDot (repo ++ tail) = (r1, r2 ++ tail)) as Hs2.
  { rewrite Hrepo, append_assoc. apply span_app; [done|].
    destruct r2 as [|c2 r2]; [|done]. rewrite append_nil_l.
    by destruct Htail as [-> | ->]. }
  destruct owner as [|co owner]; [done|].
  destruct r1 as [|c1 r1]; [done|].
  apply extractRepoInfo_match. unfold matchRepoAt.
  change (String.prefix "github.com/" ?s) with true.
  change (dropString 11 (String "g" ?s))
    with (String co owner ++ "/" ++ repo ++ tail).
  fold notSlash. rewrite Hs1.
  change ("/" ++ repo ++ tail) with (String "/" (repo ++ tail)).
  fold notSlashDot. cbv iota beta. by rewrite Hs2.
Qed.

Lemma web_reference_repo_name_witness :
  allChars isSpace " " = true
  /\ isName "vercel" = true /\ isName "next.js" = true
  /\ ("/" = "" \/ "/" = "/")
  /\ (span notSlashDot "next.js").1 <> ""
  /\ extractRepoInfo " https://github.com/vercel/next.js/"
     = Some {| Api.owner := "vercel"; Api.repo := "next" |}.
Proof.
  split; [reflexivity|]. split; [reflexivity|]. split; [reflexivity|].
  split; [by right|]. split; [discriminate|].
  apply (web_reference_repo_name " " "vercel" "next.js" "/");
    [reflexivity | reflexivity | reflexivity | by right | discriminate].
Defined.

End ApiFacts.

(** ** The explorer: explanations, folders, search box *)

Module ExplorerFacts.

Import Api CodeExplorer ExplorerView.

Lemma explorer_run_snoc (evs : list CodeExplorer.Event)
    (ev : CodeExplorer.Event) :
  CodeExplorer.run (evs ++ [ev]) = CodeExplorer.step (CodeExplorer.run evs) ev.
Proof. unfold CodeExplorer.run. by rewrite foldl_app. Qed.

Lemma explainCode_begin_request (st st' : CodeExplorer.State)
    (req : ExplainRequest) :
  explainCode_begin st = (st', Some req) ->
  isExplaining st' = true /\ code_snippet req <> ""
  /\ context req
     = "From file " ++ req_file_path req ++ " in repository analysis".
Proof.
  unfold explainCode_begin.
  destruct (selectedCode st) as [|c code]; [by intros [= <-]|].
  destruct (selectedFile st) as [file|]; [|by intros [= <-]].
  by intros [= <- <-].
Qed.

Lemma explainCode_begin_none (st st' : CodeExplorer.State) :
  explainCode_begin st = (st', None) -> st' = st.
Proof.
  unfold explainCode_begin.
  destruct (selectedCode st) as [|c code]; [by intros [= <-]|].
  destruct (selectedFile st) as [file|]; [done|by intros [= <-]].
Qed.

(** X14: whatever the user does and however the requests settle, the
    explorer has at most one explanation request in flight, [isExplaining]
    holds exactly while there is one, and the request carries a selection
    that is not empty together with the sentence naming its file. *)
Theorem explain_one_at_a_time (evs : list CodeExplorer.Event) :
  oneAtATime (CodeExplorer.run evs).
Proof.
  induction evs as [|ev evs IH] using rev_ind; [by left|].
  rewrite explorer_run_snoc.
  destruct (CodeExplorer.run evs) as [st fl]. unfold oneAtATime in *.
  cbn [ui inflight] in IH.
  destruct ev as [file|t| |i res]; cbn [CodeExplorer.step ui inflight].
  - exact IH.
  - exact IH.
  - unfold explainEnabled.
    destruct IH as [[Hidle ->]|[Hbusy Hreq]].
    + destruct (negb (selectedCode st =? "") && negb (isExplaining st))%bool;
        [|by left].
      destruct (explainCode_begin st) as [st' [req|]] eqn:E;
        cbn [ui inflight].
      * apply explainCode_begin_request in E as (? & ? & ?).
        right. split; [done|]. by exists req.
      * apply explainCode_begin_none in E as ->. by left.
    + rewrite Hbusy, andb_false_r. by right.
  - destruct (fl !! i) as [r|] eqn:Ei; cbn [ui inflight]; [|exact IH].
    left. split; [done|].
    destruct IH as [[_ ->]|[_ (req & -> & _)]]; [done|].
    destruct i as [|i]; [done|]. by destruct i.
Qed.

(** X15: [toggleFolder] flips the clicked folder and no other one, and a
    second click on the folder restores the set. *)
Theorem toggleFolder_flips_one (path : string) (expanded : gset string) :
  (path ∈ toggleFolder path expanded <-> path ∉ expanded)
  /\ (forall other, other <> path ->
        (other ∈ toggleFolder path expanded <-> other ∈ expanded))
  /\ toggleFolder path (toggleFolder path expanded) = expanded.
Proof.
  assert (forall x : string, x = path \/ x <> path) as Hdec
    by (intros x; destruct (decide (x = path)); auto).
  split_and!.
  - unfold toggleFolder. case_bool_decide as Hin; set_unfold; intuition congruence.
  - intros other Hne. unfold toggleFolder.
    case_bool_decide as Hin; set_unfold; intuition congruence.
  - unfold toggleFolder at 2. case_bool_decide as Hin.
    + unfold toggleFolder. rewrite bool_decide_eq_false_2.
      * apply set_eq. intros x. set_unfold. destruct (Hdec x); intuition congruence.
      * set_unfold. intuition congruence.
    + unfold toggleFolder. rewrite bool_decide_eq_true_2.
      * apply set_eq. intros x. set_unfold. destruct (Hdec x); intuition congruence.
      * set_unfold. intuition congruence.
Qed.

End ExplorerFacts.

(** ** The page: phases, panels and searches *)

Module AppFacts.

Import Api RepoInput App AppSession.

Lemma app_run_snoc (evs : list AppSession.Event) (ev : AppSession.Event) :
  AppSession.run (evs ++ [ev]) = AppSession.step (AppSession.run evs) ev.
Proof. unfold AppSession.run. by rewrite foldl_app. Qed.

Lemma formatError_message (e : Error) : formatError e <> "".
Proof.
  unfold formatError.
  repeat (match goal with |- context [if ?b then _ else _] => destruct b end;
          [done|]).
  by apply SubmissionFacts.or_str_nonempty.
Qed.

Lemma submit_cases (st : App.State) (form : RepoInput.State) :
  submit st form = (st, form, None)
  \/ exists repoData,
       submit st form
       = ((handleAnalyzeRepo_begin repoData st).1, form, Some repoData).
Proof.
  unfold submit, handleSubmit.
  destruct (isValid form && negb (isLoading st)); [|by left].
  right. by eexists.
Qed.

Lemma length_one_lookup {A} (x : A) (i : nat) (y : A) :
  [x] !! i = Some y -> i = 0 /\ delete i [x] = [].
Proof. destruct i as [|i]; [done|]. by destruct i. Qed.

(** The page is always in one of its four phases. *)
Lemma run_in_phase (evs : list AppSession.Event) :
  exists ph, InPhase (AppSession.run evs) ph.
Proof.
  induction evs as [|ev evs IH] using rev_ind.
  { exists Idle. by constructor. }
  rewrite app_run_snoc. destruct IH as [ph IH].
  destruct (AppSession.run evs) as [st an se].
  destruct ev as [form|i res| | |tab|q|i res|res];
    cbn [AppSession.step app analyses searches withApp].
  - (* the form is submitted *)
    destruct (formShown st) eqn:Hshown; [|by exists ph].
    destruct (submit_cases st form) as [->|[repoData ->]].
    { exists ph. by destruct IH; econstructor. }
    exists Loading. cbn [withApp app analyses].
    unfold formShown in Hshown. apply andb_true_iff in Hshown as [_ Hl].
    apply negb_true_iff in Hl.
    inversion IH; cbn [app analyses] in *; try congruence;
      subst an; by apply (InLoading _ repoData).
  - (* an analysis settles *)
    destruct (an !! i) as [r|] eqn:Ei; [|by exists ph].
    inversion IH; cbn [app analyses] in *; subst an; try done.
    apply length_one_lookup in Ei as [-> ->].
    unfold handleAnalyzeRepo_settle, analyzeRepository, wrap.
    destruct res as [result|e].
    + exists Result. constructor; cbn; by eauto.
    + exists Failed.
      eapply InFailed; [done|done|reflexivity|apply formatError_message|done].
  - (* New Analysis *)
    destruct (resultShown st) eqn:Hres; [|by exists ph].
    exists Idle. unfold resultShown in Hres.
    apply bool_decide_eq_true in Hres as [d Hd].
    inversion IH; cbn [app analyses] in *; try congruence.
    by apply InIdle.
  - (* Try Again *)
    destruct (errorShown st) eqn:Herr; [|by exists ph].
    exists Idle. unfold errorShown in Herr.
    inversion IH; cbn [app analyses] in *;
      match goal with
      | He : error st = _ |- _ => rewrite He in Herr; try done
      end.
    by apply InIdle.
  - (* a tab *)
    destruct (resultShown st); [|by exists ph].
    exists ph. destruct IH; econstructor; by eauto.
  - (* a search is sent *)
    destruct (explorerShown st); [|by exists ph].
    destruct (ExplorerView.handleSearch q ≫= _); [|by exists ph].
    exists ph. destruct IH; econstructor; by eauto.
  - (* a search settles *)
    destruct (se !! i); [|by exists ph].
    exists ph. unfold handleSearch_settle, searchCode, wrap.
    destruct res; destruct IH; econstructor; by eauto.
  - (* the health check settles *)
    exists ph. destruct IH; econstructor; by eauto.
Qed.

(** X16: whatever happens to the page, it is in one of four phases (idle,
    loading, result, failed); at most one of the spinner, the result and the
    error message is on display; an analysis request is in flight exactly
    while the spinner is shown, and never more than one; the form is offered
    exactly when neither spinner nor result is shown. *)
Theorem one_panel_at_a_time (evs : list AppSession.Event) :
  (exists ph, InPhase (AppSession.run evs) ph)
  /\ panelsShown (app (AppSession.run evs)) <= 1
  /\ length (analyses (AppSession.run evs))
     = Nat.b2n (isLoading (app (AppSession.run evs)))
  /\ formShown (app (AppSession.run evs))
     = negb (isLoading (app (AppSession.run evs)))
       && negb (resultShown (app (AppSession.run evs))).
Proof.
  destruct (run_in_phase evs) as [ph Hph]. split; [by exists ph|].
  destruct (AppSession.run evs) as [st an se].
  unfold panelsShown, formShown, resultShown, errorShown.
  inversion Hph; cbn [app analyses] in *;
    repeat match goal with
           | H : isLoading st = _ |- _ => rewrite H; clear H
           | H : error st = _ |- _ => rewrite H; clear H
           | H : an = _ |- _ => rewrite H; clear H
           | H : analysisData st = None |- _ =>
               rewrite (bool_decide_eq_false_2 (is_Some (analysisData st)))
                 by (rewrite H; by intros [? ?]);
               clear H
           | H : is_Some (analysisData st) |- _ =>
               rewrite (bool_decide_eq_true_2 _ H); clear H
           end; cbn; (split_and!; [|done..]);
    [lia..|by destruct (String.eqb _ _); cbn; lia].
Qed.


End AppFacts.

(** ** The file tree: what is found where *)

Module LookupFacts.

Import CodeExplorer Tree ExplorerView TreeFacts.
Local Open Scope list_scope.

Lemma setChild_setChild children k (v v' : Node) :
  setChild (setChild children k v) k v' = setChild children k v'.
Proof.
  induction children as [|[k0 v0] rest IH]; cbn.
  - by rewrite String.eqb_refl.
  - destruct (String.eqb_spec k0 k) as [->|Hne]; cbn.
    + by rewrite String.eqb_refl.
    + destruct (String.eqb_spec k0 k); [done|]. by rewrite IH.
Qed.

Lemma inheritedProperty_cases proto k :
  inheritedProperty proto k = Truthy \/ inheritedProperty proto k = Falsy.
Proof.
  unfold inheritedProperty.
  destruct (proto ≫= _) as [[|]|]; [by left | by right |].
  destruct (JS.inheritedKey k); [by left | by right].
Qed.

(** An inner step that returns went through the child stored under the
    segment, or through a folder made for it. *)
Lemma insertParts_inner_inv part r0 rs file name children proto t' :
  insertParts (part :: r0 :: rs) file (FolderNode name children proto)
  = Returns t' ->
  exists next next',
    (getChild children part = Some next
     \/ (getChild children part = None /\ next = FolderNode part [] None))
    /\ insertParts (r0 :: rs) file next = Returns next'
    /\ t' = FolderNode name (setChild children part next') proto.
Proof.
  change (insertParts (part :: r0 :: rs) file (FolderNode name children proto))
    with (let walk (next : Node) :=
            match insertParts (r0 :: rs) file next with
            | Returns next' =>
                Returns (FolderNode name (setChild children part next') proto)
            | ThrowsTypeError => ThrowsTypeError
            end in
          match getProperty children proto part with
          | OwnNode child => walk child
          | Truthy => ThrowsTypeError
          | Falsy => walk (FolderNode part [] None)
          end).
  cbv zeta. unfold getProperty.
  destruct (getChild children part) as [child|] eqn:Hget.
  - destruct (insertParts (r0 :: rs) file child) as [next'|] eqn:E; [|done].
    intros [= <-]. exists child, next'. auto.
  - destruct (inheritedProperty_cases proto part) as [-> | ->]; [done|].
    destruct (insertParts (r0 :: rs) file (FolderNode part [] None))
      as [next'|] eqn:E; [|done].
    intros [= <-]. exists (FolderNode part [] None), next'. auto.
Qed.

Lemma insertParts_last_inv part file name children proto t' :
  insertParts [part] file (FolderNode name children proto) = Returns t' ->
  (part = "__proto__" /\ t' = FolderNode name children (Some file))
  \/ (part <> "__proto__"
      /\ t' = FolderNode name (setChild children part (FileNode part file))
                proto).
Proof.
  cbn [insertParts].
  destruct (String.eqb_spec part "__proto__") as [->|Hne]; intros [= <-];
    [by left | by right].
Qed.

Lemma findNode_app (p k : list string) : forall t,
  findNode (p ++ k) t = findNode p t ≫= findNode k.
Proof.
  induction p as [|part p IH]; intros t; [done|].
  destruct t as [n f|name children proto]; [done|]. cbn [app findNode].
  destruct (getChild children part) as [c|]; [apply IH | done].
Qed.

(** The file node of the file is stored at the end of its path. *)
Lemma insertParts_found file parts : forall t t' nm,
  insertParts parts file t = Returns t' ->
  last parts = Some nm -> nm <> "__proto__" ->
  findNode parts t' = Some (FileNode nm file).
Proof.
  induction parts as [|part rest IH]; intros t t' nm Hins Hlast Hnm; [done|].
  destruct t as [n f|name children proto]; [done|].
  destruct rest as [|r0 rs].
  - injection Hlast as ->.
    apply insertParts_last_inv in Hins as [[-> _]|[_ ->]]; [done|].
    cbn [findNode]. by rewrite getChild_setChild_eq.
  - apply insertParts_inner_inv in Hins as (next & next' & _ & Hnext & ->).
    cbn [findNode]. rewrite getChild_setChild_eq. cbn [mbind option_bind].
    by apply (IH next).
Qed.

(** A file node stays where it is when another path is inserted, unless
    the new path leads to it or ends above it. *)
Lemma insertParts_keeps file q : forall t t' p n f,
  insertParts q file t = Returns t' ->
  findNode p t = Some (FileNode n f) ->
  ~ q `prefix_of` p ->
  findNode p t' = Some (FileNode n f).
Proof.
  induction q as [|part rest IH]; intros t t' p n f Hins Hfind Hpre.
  { exfalso. apply Hpre. apply prefix_nil. }
  destruct t as [n0 f0|name children proto]; [done|].
  destruct p as [|p0 ps]; [done|]. cbn [findNode] in Hfind.
  destruct rest as [|r0 rs].
  - assert (part <> p0) as Hne.
    { intros ->. apply Hpre. by exists ps. }
    apply insertParts_last_inv in Hins as [[-> ->]|[_ ->]]; [done|].
    cbn [findNode]. by rewrite getChild_setChild_ne.
  - apply insertParts_inner_inv in Hins as (next & next' & Hget & Hnext & ->).
    cbn [findNode].
    destruct (decide (part = p0)) as [->|Hne].
    + rewrite getChild_setChild_eq. cbn [mbind option_bind].
      destruct Hget as [Hget|[Hget _]]; rewrite Hget in Hfind; [|done].
      cbn [mbind option_bind] in Hfind.
      apply (IH next); [done|done|].
      intros Hp. apply Hpre. by apply prefix_cons.
    + by rewrite getChild_setChild_ne.
Qed.

(** Inserting a file a second time changes nothing. *)
Lemma insertParts_again file parts : forall t t',
  insertParts parts file t = Returns t' ->
  insertParts parts file t' = Returns t'.
Proof.
  induction parts as [|part rest IH]; intros t t' Hins.
  { cbn in Hins. by injection Hins as ->. }
  destruct t as [n f|name children proto]; [done|].
  destruct rest as [|r0 rs].
  - apply insertParts_last_inv in Hins as [[-> ->]|[Hne ->]]; [done|].
    apply String.eqb_neq in Hne. rewrite insertParts_last by done.
    by rewrite setChild_setChild.
  - apply insertParts_inner_inv in Hins as (next & next' & _ & Hnext & ->).
    rewrite (insertParts_inner_own _ _ _ _ _ _ _ next')
      by apply getChild_setChild_eq.
    rewrite (IH _ _ Hnext). by rewrite setChild_setChild.
Qed.

Lemma addFile_throws (files : list FileRecord) :
  foldl addFile ThrowsTypeError files = ThrowsTypeError.
Proof. by induction files. Qed.

Lemma buildFileTree_snoc (files : list FileRecord) (f : FileRecord) :
  buildFileTree (files ++ [f]) = addFile (buildFileTree files) f.
Proof. unfold buildFileTree. by rewrite foldl_app. Qed.

(** The loop that returns, cut at one of its files. *)
Lemma buildFileTree_cut (pre post : list FileRecord) (f : FileRecord) t :
  buildFileTree (pre ++ f :: post) = Returns t ->
  exists t0 t1,
    buildFileTree pre = Returns t0
    /\ insertParts (partsOf f) f t0 = Returns t1
    /\ foldl addFile (Returns t1) post = Returns t.
Proof.
  unfold buildFileTree. rewrite foldl_app. cbn [foldl].
  destruct (foldl addFile (Returns root) pre) as [t0|];
    [|cbn [addFile]; by rewrite addFile_throws].
  cbn [addFile]. fold (partsOf f).
  destruct (insertParts (partsOf f) f t0) as [t1|] eqn:Hins;
    [|by rewrite addFile_throws].
  intros Hpost. by exists t0, t1.
Qed.

Lemma addFile_keeps (post : list FileRecord) : forall t1 t p n f,
  foldl addFile (Returns t1) post = Returns t ->
  findNode p t1 = Some (FileNode n f) ->
  Forall (fun g => ~ partsOf g `prefix_of` p) post ->
  findNode p t = Some (FileNode n f).
Proof.
  induction post as [|g post IH]; intros t1 t p n f Hrun Hfind Hpost.
  { cbn in Hrun. by injection Hrun as <-. }
  apply Forall_cons in Hpost as [Hg Hpost]. cbn [foldl addFile] in Hrun.
  fold (partsOf g) in Hrun.
  destruct (insertParts (partsOf g) g t1) as [t2|] eqn:Hins;
    [|by rewrite addFile_throws in Hrun].
  apply (IH t2); [done| |done]. by eapply insertParts_keeps.
Qed.

(** X18: the tree gives back what was put in.  When [buildFileTree]
    returns, a file of the input is found at its path, with its own record,
    provided no later file has the same path or a path that ends above it. *)
Theorem buildFileTree_finds_file (pre post : list FileRecord)
    (f : FileRecord) (t : Node) (nm : string) :
  buildFileTree (pre ++ f :: post) = Returns t ->
  last (partsOf f) = Some nm -> nm <> "__proto__" ->
  Forall (fun g => ~ partsOf g `prefix_of` partsOf f) post ->
  findNode (partsOf f) t = Some (FileNode nm f).
Proof.
  intros Hrun Hlast Hnm Hpost.
  apply buildFileTree_cut in Hrun as (t0 & t1 & _ & Hins & Hrun).
  eapply addFile_keeps; [done| |done]. by eapply insertParts_found.
Qed.

Lemma buildFileTree_finds_file_witness :
  let a := Samples.file "src/a.js" in
  let b := Samples.file "src/lib/b.js" in
  let t :=
    FolderNode "root"
      [("src",
        FolderNode "src"
          [("a.js", FileNode "a.js" a);
           ("lib", FolderNode "lib" [("b.js", FileNode "b.js" b)] None)]
          None)]
      None in
  buildFileTree ([] ++ a :: [b]) = Returns t
  /\ last (partsOf a) = Some "a.js" /\ "a.js" <> "__proto__"
  /\ Forall (fun g => ~ partsOf g `prefix_of` partsOf a) [b]
  /\ findNode (partsOf a) t = Some (FileNode "a.js" a).
Proof.
  intros a b t.
  assert (Forall (fun g => ~ partsOf g `prefix_of` partsOf a) [b]) as Hpost.
  { apply List.Forall_cons; [|apply List.Forall_nil].
    intros [k Hk]. vm_compute in Hk. discriminate Hk. }
  split; [reflexivity|]. split; [reflexivity|]. split; [discriminate|].
  split; [exact Hpost|].
  apply (buildFileTree_finds_file [] [b] a t "a.js");
    [reflexivity | reflexivity | discriminate | exact Hpost].
Defined.

(** A walk along a path that is in the tree meets folders only and
    returns. *)
Lemma insertParts_onto file parts : forall t node,
  findNode parts t = Some node -> parts <> [] ->
  exists t', insertParts parts file t = Returns t'.
Proof.
  induction parts as [|part rest IH]; intros t node Hfind Hne; [done|].
  destruct t as [n f|name children proto]; [done|].
  cbn [findNode] in Hfind.
  destruct (getChild children part) as [child|] eqn:Hget; [|done].
  cbn [mbind option_bind] in Hfind.
  destruct rest as [|r0 rs].
  - cbn [insertParts]. destruct (String.eqb part "__proto__"); by eexists.
  - rewrite (insertParts_inner_own _ _ _ _ _ _ _ child) by done.
    destruct (IH child node Hfind) as [next' ->]; [done|]. by eexists.
Qed.

(** X19: a file that arrives at the path of a folder takes the place of the
    folder.  When the tree built so far has a folder at the path of the next
    file, [buildFileTree] returns, the node at that path is the file node of
    the new file, and every file that was stored below the folder is no
    longer in the tree. *)
Theorem file_replaces_folder (pre : list FileRecord) (g : FileRecord)
    (t0 : Node) (nm name : string) (children : list (string * Node))
    (proto : option FileRecord) :
  buildFileTree pre = Returns t0 ->
  findNode (partsOf g) t0 = Some (FolderNode name children proto) ->
  last (partsOf g) = Some nm -> nm <> "__proto__" ->
  exists t,
    buildFileTree (pre ++ [g]) = Returns t
    /\ findNode (partsOf g) t = Some (FileNode nm g)
    /\ forall below n f,
         findNode (partsOf g ++ below) t0 = Some (FileNode n f) ->
         findNode (partsOf g ++ below) t = None.
Proof.
  intros Hpre Hfolder Hlast Hnm.
  destruct (insertParts_onto g (partsOf g) t0 _ Hfolder) as [t Hins];
    [apply partsOf_nonempty|].
  exists t. rewrite buildFileTree_snoc, Hpre. cbn [addFile].
  fold (partsOf g).
  pose proof (insertParts_found _ _ _ _ _ Hins Hlast Hnm) as Hfound.
  split_and!; [done | done |].
  intros below n f Hbelow. rewrite findNode_app, Hfolder in Hbelow.
  rewrite findNode_app, Hfound. cbn [mbind option_bind] in *.
  by destruct below.
Qed.

Lemma file_replaces_folder_witness :
  let a := Samples.file "src/a.js" in
  let g := Samples.file "src" in
  let t0 :=
    FolderNode "root"
      [("src", FolderNode "src" [("a.js", FileNode "a.js" a)] None)] None in
  let t := FolderNode "root" [("src", FileNode "src" g)] None in
  buildFileTree [a] = Returns t0
  /\ findNode (partsOf g) t0
     = Some (FolderNode "src" [("a.js", FileNode "a.js" a)] None)
  /\ findNode (partsOf a) t0 = Some (FileNode "a.js" a)
  /\ buildFileTree ([a] ++ [g]) = Returns t
  /\ findNode (partsOf g) t = Some (FileNode "src" g)
  /\ findNode (partsOf a) t = None.
Proof.
  intros a g t0 t.
  destruct (file_replaces_folder [a] g t0 "src" "src"
              [("a.js", FileNode "a.js" a)] None)
    as (t' & Hrun & Hfound & Hgone);
    [reflexivity | reflexivity | reflexivity | discriminate |].
  assert (t' = t) as -> by (by injection Hrun).
  split_and!; [reflexivity | reflexivity | reflexivity | done | done |].
  apply (Hgone ["a.js"] "a.js" a). reflexivity.
Defined.
(** X20: a file that comes twice in a row counts once: the second pass
    leaves the tree as it is. *)
Theorem buildFileTree_repeat_file (files : list FileRecord)
    (f : FileRecord) (t : Node) :
  buildFileTree (files ++ [f]) = Returns t ->
  buildFileTree (files ++ [f; f]) = Returns t.
Proof.
  intros Hrun.
  change (files ++ [f; f]) with (files ++ [f] ++ [f]).
  rewrite app_assoc, buildFileTree_snoc, Hrun. cbn [addFile].
  rewrite buildFileTree_snoc in Hrun.
  destruct (buildFileTree files) as [t0|]; [|done]. cbn [addFile] in Hrun.
  by eapply insertParts_again.
Qed.

Lemma buildFileTree_repeat_file_witness :
  let f := Samples.file "src/a.js" in
  let t :=
    FolderNode "root"
      [("src", FolderNode "src" [("a.js", FileNode "a.js" f)] None)] None in
  buildFileTree ([] ++ [f]) = Returns t
  /\ buildFileTree ([] ++ [f; f]) = Returns t.
Proof.
  intros f t. split; [reflexivity|].
  apply (buildFileTree_repeat_file [] f t). reflexivity.
Defined.

End LookupFacts.

(** ** The form: what is sent to the backend *)

Module FormFacts.

Import JS Api RepoInput RegexSpec ReferenceSpec.

(** X21: whatever was typed or clicked before, a submission of the form
    that calls [onAnalyze] passes a reference the validator accepts, without
    white space around it, a branch that is not empty, and as name of the
    repository either [unknown] or an owner, a slash and a name, both not
    empty. *)
Theorem payload_well_formed (evs : list RepoInput.Event) (loading : bool)
    (data : RepoData) :
  (handleSubmit loading (RepoInput.run evs)).2 = Some data ->
  validateGitHubUrl (repo_url data) = true
  /\ trim (repo_url data) = repo_url data
  /\ repo_branch data <> ""
  /\ (repo_name data = "unknown"
      \/ exists o r,
           repo_name data = o ++ "/" ++ r
           /\ o <> "" /\ allChars notSlash o = true
           /\ r <> "" /\ allChars notSlashDot r = true).
Proof.
  unfold handleSubmit.
  destruct (isValid (RepoInput.run evs) && negb loading) eqn:Hgo; [|done].
  apply andb_true_iff in Hgo as [Hvalid _].
  apply SubmissionFacts.isValid_sound in Hvalid.
  cbn [snd]. intros [= <-]. cbn [repo_url repo_branch repo_name].
  split_and!.
  - unfold validateGitHubUrl in *. by rewrite ApiFacts.trim_idemp.
  - apply ApiFacts.trim_idemp.
  - by destruct (branch (RepoInput.run evs)).
  - pose proof (ApiFacts.extractRepoInfo_groups
                  (repoUrl (RepoInput.run evs))) as Hshape.
    destruct (extractRepoInfo (repoUrl (RepoInput.run evs))) as [i|];
      [|by left].
    right. exists (owner i), (repo i). by destruct Hshape as (? & ? & ? & ?).
Qed.

Lemma payload_well_formed_witness :
  let evs := [TypeUrl " https://github.com/vercel/next.js ";
              TypeBranch ""] in
  let data := {| repo_url := "https://github.com/vercel/next.js";
                 repo_branch := "main";
                 repo_name := "vercel/next" |} in
  (handleSubmit false (RepoInput.run evs)).2 = Some data
  /\ validateGitHubUrl (repo_url data) = true
  /\ trim (repo_url data) = repo_url data
  /\ repo_branch data <> "".
Proof.
  intros evs data. split; [reflexivity|].
  pose proof (payload_well_formed evs false data eq_refl) as (H1 & H2 & H3 & _).
  by split_and!.
Defined.

End FormFacts.

(** ** The file tree: the keys of the folders *)

Module FolderKeyFacts.

Import CodeExplorer Tree ExplorerView RegexSpec ReferenceSpec TreeFacts.
Import RegexFacts.

Lemma split_slashFree (s : string) : forallb slashFree (split s) = true.
Proof.
  induction s as [|c r IH]; [done|]. cbn [split].
  destruct (Ascii.eqb c "/"%char) eqn:Hc; [exact IH|].
  destruct (split r) as [|h t]; cbn [forallb] in *.
  - unfold slashFree, notSlash. cbn. by rewrite Hc.
  - apply andb_true_iff in IH as [Hh Ht]. rewrite Ht, andb_true_r.
    unfold slashFree, notSlash in *. cbn [allChars]. by rewrite Hc, Hh.
Qed.

Lemma setChild_forallb (Q : string * Node -> bool) children k v :
  forallb Q children = true -> Q (k, v) = true ->
  forallb Q (setChild children k v) = true.
Proof.
  intros Hall Hv. induction children as [|[k0 v0] rest IH]; cbn.
  - by rewrite Hv.
  - cbn in Hall. apply andb_true_iff in Hall as [H0 Hrest].
    destruct (String.eqb k0 k); cbn.
    + by rewrite Hv, Hrest.
    + by rewrite H0, IH.
Qed.

Lemma getChild_forallb (Q : string * Node -> bool) children k c :
  forallb Q children = true -> getChild children k = Some c ->
  Q (k, c) = true.
Proof.
  intros Hall. induction children as [|[k0 v0] rest IH]; cbn; [done|].
  cbn in Hall. apply andb_true_iff in Hall as [H0 Hrest].
  destruct (String.eqb_spec k0 k) as [->|_]; [by intros [= <-] | by apply IH].
Qed.

Lemma insertParts_allKeys (P : string -> bool) file parts : forall t t',
  forallb P parts = true -> allKeys P t = true ->
  insertParts parts file t = Returns t' -> allKeys P t' = true.
Proof.
  induction parts as [|part rest IH]; intros t t' Hparts Ht Hins.
  { cbn in Hins. by injection Hins as <-. }
  destruct t as [n f|name children proto]; [done|].
  cbn [forallb] in Hparts. apply andb_true_iff in Hparts as [Hpart Hrest].
  cbn [allKeys] in Ht.
  destruct rest as [|r0 rs].
  - apply LookupFacts.insertParts_last_inv in Hins as [[_ ->]|[_ ->]];
      [done|].
    cbn [allKeys]. apply setChild_forallb; [done|]. cbn. by rewrite Hpart.
  - apply LookupFacts.insertParts_inner_inv in Hins
      as (next & next' & Hget & Hnext & ->).
    cbn [allKeys]. apply setChild_forallb; [done|]. cbn [fst snd].
    rewrite Hpart. cbn [andb]. apply (IH next); [done| |done].
    destruct Hget as [Hget|[_ ->]]; [|done].
    apply (getChild_forallb _ _ _ _ Ht) in Hget. cbn [fst snd] in Hget.
    by apply andb_true_iff in Hget as [_ ?].
Qed.

Lemma buildFileTree_allKeys (files : list FileRecord) (t : Node) :
  buildFileTree files = Returns t -> allKeys slashFree t = true.
Proof.
  revert t. induction files as [|f files IH] using rev_ind; intros t.
  { by intros [= <-]. }
  rewrite LookupFacts.buildFileTree_snoc.
  destruct (buildFileTree files) as [t0|]; [|done]. cbn [addFile].
  apply insertParts_allKeys; [apply split_slashFree | by apply IH].
Qed.

Lemma folderPaths_allKeys (P : string -> bool) (t : Node) :
  allKeys P t = true -> forall q, q ∈ folderPaths t -> forallb P q = true.
Proof.
  induction t as [n f|name children proto IH] using Node_children_ind.
  { intros _ q Hq. cbn in Hq. by apply elem_of_nil in Hq. }
  cbn [allKeys folderPaths]. intros Hall q Hq.
  apply elem_of_cons in Hq as [->|Hq]; [done|].
  apply elem_of_child_paths in Hq as (k & c & q' & -> & Hin & Hq').
  rewrite forallb_forall in Hall.
  specialize (Hall (k, c) (proj1 (list_elem_of_In _ _) Hin)).
  cbn [fst snd] in Hall. apply andb_true_iff in Hall as [Hk Hc].
  cbn [forallb]. rewrite Hk. cbn [andb].
  rewrite Forall_forall in IH. by apply (IH (k, c) Hin).
Qed.

Lemma nodePath_snoc (p : list string) (a : string) :
  nodePath (p ++ [a])%list = nodePath p ++ "/" ++ a.
Proof. unfold nodePath. by rewrite foldl_app. Qed.

Lemma slashFree_count (s : string) :
  slashFree s = true -> countChar "/" s = 0.
Proof. by apply ApiFacts.countChar_allChars. Qed.

Lemma nodePath_slashes (p : list string) :
  forallb slashFree p = true -> countChar "/" (nodePath p) = length p.
Proof.
  induction p as [|a p IH] using rev_ind; [done|].
  rewrite forallb_app. intros [Hp Ha]%andb_true_iff.
  cbn [forallb] in Ha. rewrite andb_true_r in Ha.
  rewrite nodePath_snoc, !ApiFacts.countChar_app, IH, (slashFree_count a)
    by done.
  rewrite length_app. cbn. lia.
Qed.

(** The text after the last slash fixes the text before it. *)
Lemma last_slash_unique (x y a b : string) :
  slashFree a = true -> slashFree b = true ->
  x ++ "/" ++ a = y ++ "/" ++ b -> x = y /\ a = b.
Proof.
  intros Ha Hb. revert y.
  assert (forall s t : string, slashFree (s ++ String "/" t) = false) as Hno.
  { intros s t. unfold slashFree. rewrite ApiFacts.allChars_app.
    cbn. apply andb_false_r. }
  change ("/" ++ a) with (String "/" a). change ("/" ++ b) with (String "/" b).
  induction x as [|c x IH]; intros [|d y].
  - rewrite !append_nil_l. by intros [= ->].
  - rewrite append_nil_l, !append_cons. intros [= <- ->].
    by rewrite Hno in Ha.
  - rewrite append_nil_l, !append_cons. intros [= -> <-].
    by rewrite Hno in Hb.
  - rewrite !append_cons. intros [= -> H]. by apply IH in H as [-> ->].
Qed.

Lemma nodePath_inj (p : list string) : forall q,
  forallb slashFree p = true -> forallb slashFree q = true ->
  nodePath p = nodePath q -> p = q.
Proof.
  induction p as [|a p IH] using rev_ind; intros q Hp Hq Heq.
  - apply (f_equal (countChar "/")) in Heq.
    rewrite !nodePath_slashes in Heq by done. by destruct q.
  - destruct q as [|b q _] using rev_ind.
    + apply (f_equal (countChar "/")) in Heq.
      rewrite !nodePath_slashes in Heq by done.
      rewrite length_app in Heq. cbn in Heq. lia.
    + rewrite forallb_app in Hp, Hq.
      apply andb_true_iff in Hp as [Hp Ha].
      apply andb_true_iff in Hq as [Hq Hb]. cbn [forallb] in Ha, Hb.
      rewrite andb_true_r in Ha, Hb.
      rewrite !nodePath_snoc in Heq.
      apply last_slash_unique in Heq as [Heq ->]; [|done..].
      by rewrite (IH q).
Qed.

(** X22: in a tree made by [buildFileTree], different folders have
    different paths in [expandedFolders]: a click on a folder opens or
    closes this folder and leaves every other folder of the tree as it
    is. *)
Theorem folder_click_is_local (files : list FileRecord) (t : Node)
    (p q : list string) (expanded : gset string) :
  buildFileTree files = Returns t ->
  p ∈ folderPaths t -> q ∈ folderPaths t -> p <> q ->
  nodePath p <> nodePath q
  /\ (nodePath q ∈ toggleFolder (nodePath p) expanded
      <-> nodePath q ∈ expanded).
Proof.
  intros Hrun Hp Hq Hpq.
  apply buildFileTree_allKeys in Hrun.
  assert (nodePath p <> nodePath q) as Hne.
  { intros Heq. apply Hpq.
    apply nodePath_inj; [by eapply folderPaths_allKeys..|done]. }
  split; [done|]. unfold toggleFolder.
  case_bool_decide as Hin; set_unfold; intuition congruence.
Qed.

Lemma folder_click_is_local_witness :
  let a := Samples.file "src/a.js" in
  let b := Samples.file "docs/b.md" in
  let t :=
    FolderNode "root"
      [("src", FolderNode "src" [("a.js", FileNode "a.js" a)] None);
       ("docs", FolderNode "docs" [("b.md", FileNode "b.md" b)] None)]
      None in
  buildFileTree [a; b] = Returns t
  /\ ["src"] ∈ folderPaths t /\ ["docs"] ∈ folderPaths t
  /\ ["src"] <> ["docs"]
  /\ nodePath ["src"] <> nodePath ["docs"]
  /\ (nodePath ["docs"] ∈ toggleFolder (nodePath ["src"]) initExpanded
      <-> nodePath ["docs"] ∈ initExpanded).
Proof.
  intros a b t.
  assert (["src"] ∈ folderPaths t) as Hp.
  { apply list_elem_of_In. vm_compute. auto. }
  assert (["docs"] ∈ folderPaths t) as Hq.
  { apply list_elem_of_In. vm_compute. auto. }
  split; [reflexivity|]. split; [exact Hp|]. split; [exact Hq|].
  split; [discriminate|].
  apply (folder_click_is_local [a; b] t ["src"] ["docs"] initExpanded);
    [reflexivity | exact Hp | exact Hq | discriminate].
Defined.

End FolderKeyFacts.
